(** * Scene synchronisation of the Living Notebook

    A shallow embedding of the TypeScript sources
    - [src/types.ts] (the data model),
    - the Gemini service ([cleanJson], [sanitizeNumber] and the
      post-processing of [interpretVoiceCommand]; second part of
      [src/components/ErrorBoundary.tsx]),
    - [src/App.tsx] (the scene merge inside [toggleRecording]),
    - [src/components/SimulationCanvas.tsx] (world construction, wheel zoom,
      collision flash, gravity normalisation).

    Numbers.  A JavaScript number is modelled as an exact rational or one of
    the three non-finite values; the general statements do not model IEEE-754
    rounding.  The numeric instances quoted for the gravity effect are also
    evaluated on binary64 numbers ([Binary64]).  Strings are byte strings. *)

From Stdlib Require Import QArith Qround Lqa Lia PrimFloat.

#[local] Set Warnings "-inexact-float".
From Stdlib Require Import String Ascii List Bool.
From stdpp Require Import gmap strings list.
Import ListNotations.

Local Open Scope Q_scope.

(** ** JavaScript numbers *)

Inductive number : Type :=
| Fin (q : Q)
| NaN
| PosInf
| NegInf.

(** Global [isNaN] and [isFinite], on a value that already is a number. *)
Definition isNaN (n : number) : bool :=
  match n with NaN => true | _ => false end.

Definition isFinite (n : number) : bool :=
  match n with Fin _ => true | _ => false end.

(** [Math.max] and [Math.min] on two arguments: [NaN] is contagious, the
    infinities are the extremes of the order. *)
Definition Math_max (a b : number) : number :=
  match a, b with
  | NaN, _ | _, NaN => NaN
  | PosInf, _ | _, PosInf => PosInf
  | NegInf, n | n, NegInf => n
  | Fin p, Fin q => if Qle_bool q p then Fin p else Fin q
  end.

Definition Math_min (a b : number) : number :=
  match a, b with
  | NaN, _ | _, NaN => NaN
  | NegInf, _ | _, NegInf => NegInf
  | PosInf, n | n, PosInf => n
  | Fin p, Fin q => if Qle_bool p q then Fin p else Fin q
  end.

(** Multiplication, with the IEEE rules for the non-finite operands. *)
Definition sign_times (positive : bool) (q : Q) : number :=
  if Qeq_bool q 0 then NaN
  else if Qle_bool 0 q then (if positive then PosInf else NegInf)
  else (if positive then NegInf else PosInf).

Definition times (a b : number) : number :=
  match a, b with
  | NaN, _ | _, NaN => NaN
  | Fin p, Fin q => Fin (p * q)
  | PosInf, Fin q | Fin q, PosInf => sign_times true q
  | NegInf, Fin q | Fin q, NegInf => sign_times false q
  | PosInf, PosInf | NegInf, NegInf => PosInf
  | PosInf, NegInf | NegInf, PosInf => NegInf
  end.

(** [parseFloat(val)] for a field that the response schema types as NUMBER:
    the field is a number or is missing ([undefined]); a missing field parses
    to [NaN], a number parses to itself. *)
Definition parseFloat (val : option number) : number :=
  match val with
  | Some n => n
  | None => NaN
  end.

(** ** Numeric sanitizer *)

Definition sanitizeNumber (val : option number) (min max : number)
    (fallback : option number) : number :=
  let n := parseFloat val in
  if isNaN n || negb (isFinite n) then
    match fallback with
    | Some f => f
    | None => min
    end
  else Math_min (Math_max n min) max.

(** ** Data model ([src/types.ts]) *)

Module Point.
Record t : Type := mk { x : number; y : number }.
End Point.

Module BodyDef.
Record t : Type := mk {
  id : string;
  type : string;
  x : number;
  y : number;
  width : option number;
  height : option number;
  radius : option number;
  angle : option number;
  isStatic : bool;
  color : option string;
  friction : option number
}.
End BodyDef.

(** An element of [updatedBodies].  The TypeScript type is [BodyDef] again,
    but the response schema requires only [id]: every other field may be
    missing. *)
Module BodyUpdate.
Record t : Type := mk {
  id : string;
  type : option string;
  x : option number;
  y : option number;
  width : option number;
  height : option number;
  radius : option number;
  angle : option number;
  isStatic : option bool;
  color : option string;
  friction : option number
}.
End BodyUpdate.

(** The value of an id field of a constraint at run time.  [types.ts]
    declares [bodyAId] and [bodyBId] as strings, and strings they are in a
    parsed response; but the id remapping of [interpretVoiceCommand] reads
    the plain object [idMap], and a read of a name that the object inherits
    from [Object.prototype] yields that member (a function, or the prototype
    itself), which is then stored in the field. *)
Inductive idValue : Type :=
| Str (s : string)
| Inherited (name : string).

#[global] Instance idValue_eq_dec : EqDecision idValue.
Proof. solve_decision. Defined.

Module ConstraintDef.
Record t : Type := mk {
  bodyAId : idValue;
  bodyBId : option idValue;
  pointB : option Point.t;
  stiffness : option number;
  length : option number
}.
End ConstraintDef.

Module SceneConfig.
Record t : Type := mk {
  bodies : list BodyDef.t;
  constraints : list ConstraintDef.t
}.
End SceneConfig.

Module Gravity.
Record t : Type := mk { x : number; y : number }.
End Gravity.

Module PhysicsState.
Record t : Type := mk {
  gravity : Gravity.t;
  timeScale : number;
  enableCollisionEffects : bool
}.
End PhysicsState.

(** [physicsUpdates] is left out: neither the post-processing of the service
    nor the scene merge reads it. *)
Module VoiceCommandResponse.
Record t : Type := mk {
  summary : option string;
  newBodies : option (list BodyDef.t);
  updatedBodies : option (list BodyUpdate.t);
  newConstraints : option (list ConstraintDef.t);
  removeBodyIds : option (list string)
}.
End VoiceCommandResponse.

(** Truthiness of a string: only the empty string is falsy. *)
Definition truthy (s : string) : bool :=
  match s with
  | EmptyString => false
  | String _ _ => true
  end.

(** Truthiness of an id value: functions and objects are truthy. *)
Definition truthyId (v : idValue) : bool :=
  match v with
  | Str s => truthy s
  | Inherited _ => true
  end.

(** ** Post-processing of a parsed response ([interpretVoiceCommand]) *)

(** The names every plain object inherits from [Object.prototype].  All of
    them are functions, except [__proto__], an accessor whose getter yields
    the prototype and whose setter ignores a string. *)
Definition objectPrototypeNames : list string :=
  ["constructor"; "hasOwnProperty"; "isPrototypeOf"; "propertyIsEnumerable";
   "toLocaleString"; "toString"; "valueOf"; "__proto__";
   "__defineGetter__"; "__defineSetter__"; "__lookupGetter__";
   "__lookupSetter__"]%string.

(** [idMap[key]] for the object [const idMap: Record<string, string> = {}],
    given by its own entries: an own entry is found first, then the
    prototype; [None] is [undefined]. *)
Definition getProperty (idMap : gmap string string) (key : string)
    : option idValue :=
  match idMap !! key with
  | Some value => Some (Str value)
  | None =>
      if bool_decide (key ∈ objectPrototypeNames)
      then Some (Inherited key)
      else None
  end.

(** [idMap[key] = value] for a string [value]: an own entry is created or
    overwritten, except for [__proto__], where the inherited setter runs and
    does nothing. *)
Definition setProperty (idMap : gmap string string) (key value : string)
    : gmap string string :=
  if String.eqb key "__proto__" then idMap else <[key := value]> idMap.

Section Remap.

(** [Date.now().toString().slice(-4)] *)
Variable timestamp : string.

Definition newId (oldId : string) : string :=
  (oldId ++ "_" ++ timestamp)%string.

(** The [newBodies.forEach] loop does two independent things to each body:
    it records [idMap[oldId] = newId] and it rewrites the body in place. *)
Definition buildIdMap (newBodies : list BodyDef.t) : gmap string string :=
  fold_left (fun idMap b => setProperty idMap (BodyDef.id b) (newId (BodyDef.id b)))
            newBodies ∅.

Definition sanitizeNewBody (b : BodyDef.t) : BodyDef.t :=
  {| BodyDef.id := newId (BodyDef.id b);
     BodyDef.type := BodyDef.type b;
     BodyDef.x :=
       sanitizeNumber (Some (BodyDef.x b)) (Fin (-2000)) (Fin 2000) (Some (Fin 400));
     BodyDef.y :=
       sanitizeNumber (Some (BodyDef.y b)) (Fin (-2000)) (Fin 2000) (Some (Fin 300));
     BodyDef.width :=
       if String.eqb (BodyDef.type b) "rectangle"
       then Some (sanitizeNumber (BodyDef.width b) (Fin 1) (Fin 2000) (Some (Fin 100)))
       else BodyDef.width b;
     BodyDef.height :=
       if String.eqb (BodyDef.type b) "rectangle"
       then Some (sanitizeNumber (BodyDef.height b) (Fin 1) (Fin 2000) (Some (Fin 20)))
       else BodyDef.height b;
     BodyDef.radius :=
       if String.eqb (BodyDef.type b) "circle"
       then Some (sanitizeNumber (BodyDef.radius b) (Fin 1) (Fin 400) (Some (Fin 20)))
       else BodyDef.radius b;
     BodyDef.angle := BodyDef.angle b;
     BodyDef.isStatic := BodyDef.isStatic b;
     BodyDef.color := BodyDef.color b;
     BodyDef.friction :=
       Some (sanitizeNumber (BodyDef.friction b) (Fin 0) (Fin 1) (Some (Fin 0.1))) |}.

(** [if (b.f !== undefined) b.f = sanitizeNumber(b.f, lo, hi, fb)] *)
Definition sanitizeDefined (field : option number) (lo hi : number)
    (fallback : option number) : option number :=
  match field with
  | Some v => Some (sanitizeNumber (Some v) lo hi fallback)
  | None => None
  end.

Definition sanitizeUpdatedBody (b : BodyUpdate.t) : BodyUpdate.t :=
  {| BodyUpdate.id := BodyUpdate.id b;
     BodyUpdate.type := BodyUpdate.type b;
     BodyUpdate.x :=
       sanitizeDefined (BodyUpdate.x b) (Fin (-2000)) (Fin 2000) (BodyUpdate.x b);
     BodyUpdate.y :=
       sanitizeDefined (BodyUpdate.y b) (Fin (-2000)) (Fin 2000) (BodyUpdate.y b);
     BodyUpdate.width :=
       sanitizeDefined (BodyUpdate.width b) (Fin 1) (Fin 2000) (BodyUpdate.width b);
     BodyUpdate.height :=
       sanitizeDefined (BodyUpdate.height b) (Fin 1) (Fin 2000) (BodyUpdate.height b);
     BodyUpdate.radius :=
       sanitizeDefined (BodyUpdate.radius b) (Fin 1) (Fin 400) (BodyUpdate.radius b);
     BodyUpdate.angle := BodyUpdate.angle b;
     BodyUpdate.isStatic := BodyUpdate.isStatic b;
     BodyUpdate.color := BodyUpdate.color b;
     BodyUpdate.friction :=
       sanitizeDefined (BodyUpdate.friction b) (Fin 0) (Fin 1) (Some (Fin 0.1)) |}.

(** [idMap[id]] for the value [id] of an id field.  The id fields of a
    parsed response are strings, and each field is looked up once, before it
    is rewritten: a value that is no string is not a key here. *)
Definition lookupId (idMap : gmap string string) (id : idValue)
    : option idValue :=
  match id with
  | Str key => getProperty idMap key
  | Inherited _ => None
  end.

(** [if (idMap[c.bodyAId]) c.bodyAId = idMap[c.bodyAId]] *)
Definition remapA (idMap : gmap string string) (bodyAId : idValue) : idValue :=
  match lookupId idMap bodyAId with
  | Some found => if truthyId found then found else bodyAId
  | None => bodyAId
  end.

(** [if (c.bodyBId && idMap[c.bodyBId]) c.bodyBId = idMap[c.bodyBId]] *)
Definition remapB (idMap : gmap string string) (bodyBId : option idValue)
    : option idValue :=
  match bodyBId with
  | Some b =>
      if truthyId b then
        match lookupId idMap b with
        | Some found => if truthyId found then Some found else Some b
        | None => Some b
        end
      else Some b
  | None => None
  end.

Definition sanitizeConstraint (idMap : gmap string string)
    (c : ConstraintDef.t) : ConstraintDef.t :=
  {| ConstraintDef.bodyAId := remapA idMap (ConstraintDef.bodyAId c);
     ConstraintDef.bodyBId := remapB idMap (ConstraintDef.bodyBId c);
     ConstraintDef.pointB := ConstraintDef.pointB c;
     ConstraintDef.stiffness :=
       sanitizeDefined (ConstraintDef.stiffness c) (Fin 0.001) (Fin 1) (Some (Fin 0.1));
     ConstraintDef.length :=
       sanitizeDefined (ConstraintDef.length c) (Fin 1) (Fin 1000) None |}.

(** The map in force when the constraints are rewritten: empty when the
    response has no [newBodies]. *)
Definition idMapOf (result : VoiceCommandResponse.t) : gmap string string :=
  match VoiceCommandResponse.newBodies result with
  | Some bs => buildIdMap bs
  | None => ∅
  end.

(** [if (list) list.forEach(f)], with [f] rewriting each element in place. *)
Definition ifPresent {A : Type} (f : A -> A) (l : option (list A))
  : option (list A) :=
match l with
| Some l => Some (f <$> l)
| None => None
end.

(** Lines 389-435 of the service: what [interpretVoiceCommand] returns for
    a response that parsed to [result]. *)
Definition postProcess (result : VoiceCommandResponse.t)
    : VoiceCommandResponse.t :=
  {| VoiceCommandResponse.summary := VoiceCommandResponse.summary result;
     VoiceCommandResponse.newBodies :=
       ifPresent sanitizeNewBody (VoiceCommandResponse.newBodies result);
     VoiceCommandResponse.updatedBodies :=
       ifPresent sanitizeUpdatedBody (VoiceCommandResponse.updatedBodies result);
     VoiceCommandResponse.newConstraints :=
       ifPresent (sanitizeConstraint (idMapOf result))
         (VoiceCommandResponse.newConstraints result);
     VoiceCommandResponse.removeBodyIds :=
       VoiceCommandResponse.removeBodyIds result |}.

End Remap.

(** ** Scene merge ([toggleRecording] in [src/App.tsx]) *)

(** [Array.prototype.findIndex]; [None] stands for [-1]. *)
Fixpoint findIndex {A : Type} (p : A -> bool) (l : list A) : option nat :=
  match l with
  | [] => None
  | a :: l' => if p a then Some 0%nat else S <$> findIndex p l'
  end.

(** [Array.prototype.includes] on an array of strings. *)
Definition includes (ids : list string) (id : string) : bool :=
  existsb (String.eqb id) ids.

(** [ids.includes(v)] for the value of an id field: the comparison is
    strict, so a value that is no string is in no array of strings. *)
Definition includesId (ids : list string) (v : idValue) : bool :=
  match v with
  | Str id => includes ids id
  | Inherited _ => false
  end.

(** Object spread of one field: the later object wins where it defines the
    field. *)
Definition over {A : Type} (prior : A) (upd : option A) : A :=
  match upd with
  | Some v => v
  | None => prior
  end.

Definition overOpt {A : Type} (prior upd : option A) : option A :=
  match upd with
  | Some v => Some v
  | None => prior
  end.

(** [{ ...old, ...updatedBody }] *)
Definition spread (old : BodyDef.t) (updatedBody : BodyUpdate.t) : BodyDef.t :=
  {| BodyDef.id := BodyUpdate.id updatedBody;
     BodyDef.type := over (BodyDef.type old) (BodyUpdate.type updatedBody);
     BodyDef.x := over (BodyDef.x old) (BodyUpdate.x updatedBody);
     BodyDef.y := over (BodyDef.y old) (BodyUpdate.y updatedBody);
     BodyDef.width := overOpt (BodyDef.width old) (BodyUpdate.width updatedBody);
     BodyDef.height := overOpt (BodyDef.height old) (BodyUpdate.height updatedBody);
     BodyDef.radius := overOpt (BodyDef.radius old) (BodyUpdate.radius updatedBody);
     BodyDef.angle := overOpt (BodyDef.angle old) (BodyUpdate.angle updatedBody);
     BodyDef.isStatic := over (BodyDef.isStatic old) (BodyUpdate.isStatic updatedBody);
     BodyDef.color := overOpt (BodyDef.color old) (BodyUpdate.color updatedBody);
     BodyDef.friction := overOpt (BodyDef.friction old) (BodyUpdate.friction updatedBody) |}.

(** [b => b.id === id] *)
Definition hasId (id : string) (b : BodyDef.t) : bool :=
  String.eqb (BodyDef.id b) id.

(** The body of [response.updatedBodies.forEach]. *)
Definition processUpdate (updatedBodiesList : list BodyDef.t)
    (updatedBody : BodyUpdate.t) : list BodyDef.t :=
  match findIndex (hasId (BodyUpdate.id updatedBody)) updatedBodiesList with
  | Some index =>
      match updatedBodiesList !! index with
      | Some old => <[index := spread old updatedBody]> updatedBodiesList
      | None => updatedBodiesList
      end
  | None => updatedBodiesList
  end.

Definition emptyScene : SceneConfig.t :=
  {| SceneConfig.bodies := []; SceneConfig.constraints := [] |}.

(** [x || []] for an optional array. *)
Definition orEmpty {A : Type} (l : option (list A)) : list A :=
  match l with
  | Some l => l
  | None => []
  end.

(** [l && l.length > 0] *)
Definition nonEmpty {A : Type} (l : option (list A)) : bool :=
  match l with
  | Some (_ :: _) => true
  | _ => false
  end.

(** First state updater: updates, then additions. *)
Definition applyAdditions (response : VoiceCommandResponse.t)
    (prev : option SceneConfig.t) : option SceneConfig.t :=
  let currentConfig := over emptyScene prev in
  let safeBodies := SceneConfig.bodies currentConfig in
  let safeConstraints := SceneConfig.constraints currentConfig in
  let updatedBodiesList :=
    fold_left processUpdate
      (orEmpty (VoiceCommandResponse.updatedBodies response)) safeBodies in
  Some {| SceneConfig.bodies :=
            updatedBodiesList ++ orEmpty (VoiceCommandResponse.newBodies response);
          SceneConfig.constraints :=
            safeConstraints ++ orEmpty (VoiceCommandResponse.newConstraints response) |}.

(** The filter predicate that keeps a constraint during removal. *)
Definition survives (idsToRemove : list string) (c : ConstraintDef.t) : bool :=
  negb (includesId idsToRemove (ConstraintDef.bodyAId c))
  && match ConstraintDef.bodyBId c with
     | Some b => negb (truthyId b) || negb (includesId idsToRemove b)
     | None => true
     end.

(** Second state updater: removals. *)
Definition applyRemovals (response : VoiceCommandResponse.t)
    (prev : option SceneConfig.t) : option SceneConfig.t :=
  match prev with
  | None => None
  | Some prev =>
      let idsToRemove := orEmpty (VoiceCommandResponse.removeBodyIds response) in
      Some {| SceneConfig.bodies :=
                List.filter (fun b => negb (includes idsToRemove (BodyDef.id b)))
                            (SceneConfig.bodies prev);
              SceneConfig.constraints :=
                List.filter (survives idsToRemove) (SceneConfig.constraints prev) |}
  end.

(** The two guarded [setSceneConfig] calls, in program order. *)
Definition applyVoiceCommand (response : VoiceCommandResponse.t)
    (sceneConfig : option SceneConfig.t) : option SceneConfig.t :=
  let afterAdd :=
    if nonEmpty (VoiceCommandResponse.newBodies response)
       || nonEmpty (VoiceCommandResponse.newConstraints response)
       || nonEmpty (VoiceCommandResponse.updatedBodies response)
    then applyAdditions response sceneConfig
    else sceneConfig in
  if nonEmpty (VoiceCommandResponse.removeBodyIds response)
  then applyRemovals response afterAdd
  else afterAdd.

(** ** Data Model invariants of a scene *)

Definition bodyIds (bodies : list BodyDef.t) : list string :=
  BodyDef.id <$> bodies.

(** The id values of the bodies: the values a reference has to be equal to
    in order to name a body. *)
Definition bodyRefs (bodies : list BodyDef.t) : list idValue :=
  Str <$> bodyIds bodies.

(** What a constraint refers to: [bodyAId], and [bodyBId] when it is
    present and truthy (the code treats an empty [bodyBId] as absent
    everywhere). *)
Definition references (c : ConstraintDef.t) : list idValue :=
  ConstraintDef.bodyAId c ::
  match ConstraintDef.bodyBId c with
  | Some b => if truthyId b then [b] else []
  | None => []
  end.

Definition uniqueIds (s : SceneConfig.t) : Prop :=
  NoDup (bodyIds (SceneConfig.bodies s)).

Definition noDangling (s : SceneConfig.t) : Prop :=
  Forall (fun c => Forall (fun r => r ∈ bodyRefs (SceneConfig.bodies s)) (references c))
         (SceneConfig.constraints s).

Definition wellFormed (s : SceneConfig.t) : Prop :=
  uniqueIds s /\ noDangling s.

(** A scene state is the React state [SceneConfig | null]. *)
Definition wellFormedState (st : option SceneConfig.t) : Prop :=
  match st with
  | Some s => wellFormed s
  | None => True
  end.

#[global] Instance wellFormed_dec (s : SceneConfig.t) : Decision (wellFormed s).
Proof. unfold wellFormed, uniqueIds, noDangling. apply _. Defined.

#[global] Instance wellFormedState_dec (st : option SceneConfig.t) :
  Decision (wellFormedState st).
Proof. destruct st; simpl; apply _. Defined.

(** ** World construction ([SimulationCanvas], engine effect) *)

(** What the canvas keeps of a Matter.js body and constraint: the fields it
    passes to [Bodies.circle]/[Bodies.rectangle] and [Constraint.create]. *)
Module MatterBody.
Record t : Type := mk {
  label : string;
  position : Point.t;
  isStatic : bool;
  friction : number
}.
End MatterBody.

Module MatterConstraint.
Record t : Type := mk {
  bodyA : MatterBody.t;
  bodyB : option MatterBody.t;
  pointB : option Point.t;
  stiffness : number;
  length : option number
}.
End MatterConstraint.

Definition createBody (def : BodyDef.t) : MatterBody.t :=
  {| MatterBody.label := BodyDef.id def;
     MatterBody.position := {| Point.x := BodyDef.x def; Point.y := BodyDef.y def |};
     MatterBody.isStatic := BodyDef.isStatic def;
     MatterBody.friction := over (Fin 0.1) (BodyDef.friction def) |}.

(** [sceneConfig.bodies.forEach]: a body with a non-finite coordinate is
    skipped, every other body is stored under its id ([Map.set] overwrites). *)
Definition addBody (bodiesMap : gmap string MatterBody.t) (def : BodyDef.t)
    : gmap string MatterBody.t :=
  if negb (isFinite (BodyDef.x def)) || negb (isFinite (BodyDef.y def))
  then bodiesMap
  else <[BodyDef.id def := createBody def]> bodiesMap.

Definition buildBodiesMap (bodies : list BodyDef.t) : gmap string MatterBody.t :=
  fold_left addBody bodies ∅.

(** Truthiness of a number: [0] and [NaN] are falsy. *)
Definition truthyNumber (n : number) : bool :=
  match n with
  | Fin q => negb (Qeq_bool q 0)
  | NaN => false
  | PosInf | NegInf => true
  end.

(** [bodiesMap.get(v)] for the value of an id field: the keys of the map
    are strings, so a value that is no string finds nothing. *)
Definition getBody (bodiesMap : gmap string MatterBody.t) (v : idValue)
    : option MatterBody.t :=
  match v with
  | Str id => bodiesMap !! id
  | Inherited _ => None
  end.

(** The body of [sceneConfig.constraints.forEach]: [None] when no constraint
    is created. *)
Definition createConstraint (bodiesMap : gmap string MatterBody.t)
    (cDef : ConstraintDef.t) : option MatterConstraint.t :=
  let bodyA := getBody bodiesMap (ConstraintDef.bodyAId cDef) in
  let bodyB :=
    match ConstraintDef.bodyBId cDef with
    | Some b => if truthyId b then getBody bodiesMap b else None
    | None => None
    end in
  match bodyA with
  | Some bodyA =>
      Some {| MatterConstraint.bodyA := bodyA;
              MatterConstraint.bodyB := bodyB;
              MatterConstraint.pointB :=
                match ConstraintDef.pointB cDef with
                | Some p => Some p
                | None =>
                    match bodyB with
                    | Some _ => None
                    | None => Some {| Point.x := Fin 0; Point.y := Fin 0 |}
                    end
                end;
              MatterConstraint.stiffness :=
                match ConstraintDef.stiffness cDef with
                | Some s => if truthyNumber s then s else Fin 0.1
                | None => Fin 0.1
                end;
              MatterConstraint.length := ConstraintDef.length cDef |}
  | None => None
  end.

(** The constraints added to the engine world for a scene. *)
Definition worldConstraints (sceneConfig : SceneConfig.t)
    : list MatterConstraint.t :=
  let bodiesMap := buildBodiesMap (SceneConfig.bodies sceneConfig) in
  omap (createConstraint bodiesMap) (SceneConfig.constraints sceneConfig).

(** ** Viewport: wheel zoom *)

Module Vector.
Record t : Type := mk { x : Q; y : Q }.
End Vector.

Module Bounds.
Record t : Type := mk { min : Vector.t; max : Vector.t }.
End Bounds.

(** The part of [Matter.Render] the zoom handler reads and writes. *)
Module Render.
Record t : Type := mk {
  bounds : Bounds.t;
  canvas_width : Q;
  canvas_height : Q
}.
End Render.

(** Modelled from the spec: [Render.lookAt] belongs to Matter.js and is not
    among the sources.  Section 4.7 of the spec has the zoom "apply the new
    bounds": the box becomes the render bounds.  (The handler only ever
    passes a box that already has the canvas's aspect ratio.) *)
Definition lookAt (render : Render.t) (box : Bounds.t) : Render.t :=
  {| Render.bounds := box;
     Render.canvas_width := Render.canvas_width render;
     Render.canvas_height := Render.canvas_height render |}.

Definition PADDING : Q := 100.

(** The box of the initial [Render.lookAt] call. *)
Definition initialView : Bounds.t :=
  {| Bounds.min := {| Vector.x := - PADDING; Vector.y := - PADDING |};
     Bounds.max := {| Vector.x := 800 + PADDING; Vector.y := 600 + PADDING |} |}.

Definition boxWidth (b : Bounds.t) : Q :=
  Vector.x (Bounds.max b) - Vector.x (Bounds.min b).

Definition Qgtb (a b : Q) : bool := negb (Qle_bool a b).
Definition Qltb (a b : Q) : bool := negb (Qle_bool b a).

(** [e.deltaY > 0 ? 1.1 : 0.9] *)
Definition zoomFactorOf (deltaY : Q) : Q :=
  if Qgtb deltaY 0 then 1.1 else 0.9.

Definition handleWheel (deltaY : Q) (render : Render.t) : Render.t :=
  let zoomFactor := zoomFactorOf deltaY in
  let bounds := Render.bounds render in
  let dx := Vector.x (Bounds.max bounds) - Vector.x (Bounds.min bounds) in
  if Qgtb dx 4000 && Qgtb zoomFactor 1 then render
  else if Qltb dx 100 && Qltb zoomFactor 1 then render
  else
    let center :=
      {| Vector.x := (Vector.x (Bounds.min bounds) + Vector.x (Bounds.max bounds)) / 2;
         Vector.y := (Vector.y (Bounds.min bounds) + Vector.y (Bounds.max bounds)) / 2 |} in
    let newDx := dx * zoomFactor in
    let aspectRatio := Render.canvas_height render / Render.canvas_width render in
    let newDy := newDx * aspectRatio in
    lookAt render
      {| Bounds.min := {| Vector.x := Vector.x center - newDx / 2;
                          Vector.y := Vector.y center - newDy / 2 |};
         Bounds.max := {| Vector.x := Vector.x center + newDx / 2;
                          Vector.y := Vector.y center + newDy / 2 |} |}.

(** The renders reached by a sequence of wheel events, one per event. *)
Fixpoint wheelTrace (deltas : list Q) (render : Render.t) : list Render.t :=
  match deltas with
  | [] => []
  | d :: deltas' =>
      let render' := handleWheel d render in
      render' :: wheelTrace deltas' render'
  end.

Definition widthOf (render : Render.t) : Q := boxWidth (Render.bounds render).

(** ** The gravity effect in double precision

    The same assignment on IEEE-754 binary64 numbers, to evaluate the quoted
    inputs with the rounding of the real engine. *)
Module Binary64.

Definition isFinite (x : float) : bool :=
negb (PrimFloat.is_nan x) && negb (PrimFloat.is_infinity x).

(** [Math.max] and [Math.min] on two numbers that are not [NaN]. *)
Definition Math_max (a b : float) : float := if PrimFloat.ltb a b then b else a.
Definition Math_min (a b : float) : float := if PrimFloat.ltb b a then b else a.

Definition GRAVITY_SCALE_FACTOR : float := (1 / 9.81)%float.

Definition clampAxis (normalized fallback : float) : float :=
if isFinite normalized
then Math_min (Math_max normalized (-10)%float) 10%float
else fallback.

(** [(engine.gravity.x, engine.gravity.y)] for [physicsState.gravity = (x, y)]. *)
Definition normalizeGravity (x y : float) : float * float :=
let normalizedY := (y * GRAVITY_SCALE_FACTOR)%float in
let normalizedX := (x * GRAVITY_SCALE_FACTOR)%float in
(clampAxis normalizedX 0%float, clampAxis normalizedY 1%float).

End Binary64.

(** ** Collision flash *)

Module Flash.
Record t : Type := mk { x : number; y : number; frame : nat }.
End Flash.

(** The [collisionStart] listener.  A pair carries [supports[0]], which may
    be missing. *)
Definition collisionStart (enableCollisionEffects : bool)
    (pairs : list (option Point.t)) (flash : option Flash.t) : option Flash.t :=
  if negb enableCollisionEffects then flash
  else
    fold_left
      (fun flash collisionPoint =>
         match collisionPoint with
         | Some p => Some {| Flash.x := Point.x p; Flash.y := Point.y p; Flash.frame := 0 |}
         | None => flash
         end)
      pairs flash.

(** The spark drawn by one [afterRender]: centre and radius. *)
Module Spark.
Record t : Type := mk { x : number; y : number; radius : nat }.
End Spark.

(** The "Sparks" block of the [afterRender] listener: what is drawn, and the
    flash slot afterwards. *)
Definition afterRender (flash : option Flash.t) : option Spark.t * option Flash.t :=
  match flash with
  | Some f =>
      if (Flash.frame f <? 10)%nat && isFinite (Flash.x f) && isFinite (Flash.y f)
      then (Some {| Spark.x := Flash.x f; Spark.y := Flash.y f;
                    Spark.radius := (25 - Flash.frame f)%nat |},
            Some {| Flash.x := Flash.x f; Flash.y := Flash.y f;
                    Flash.frame := S (Flash.frame f) |})
      else (None, flash)
  | None => (None, None)
  end.

(** The flash slot after [n] render ticks. *)
Fixpoint renderTicks (n : nat) (flash : option Flash.t) : option Flash.t :=
  match n with
  | O => flash
  | S n' => renderTicks n' (snd (afterRender flash))
  end.

(** ** Gravity normalisation (the physics effect of [SimulationCanvas]) *)

Definition GRAVITY_SCALE_FACTOR : number := Fin (1 / 9.81).

Definition clampAxis (normalized : number) (fallback : number) : number :=
  if isFinite normalized
  then Math_min (Math_max normalized (Fin (-10))) (Fin 10)
  else fallback.

(** The values stored in [engine.gravity]. *)
Definition normalizeGravity (gravity : Gravity.t) : Gravity.t :=
  let normalizedY := times (Gravity.y gravity) GRAVITY_SCALE_FACTOR in
  let normalizedX := times (Gravity.x gravity) GRAVITY_SCALE_FACTOR in
  {| Gravity.x := clampAxis normalizedX (Fin 0);
     Gravity.y := clampAxis normalizedY (Fin 1) |}.

(** ** Response cleaning ([cleanJson]) *)

(** [s.replace(/pat/g, '')] for a literal, non-empty pattern: scan from the
    left; at a match, drop the whole match and go on behind it.  [skip] counts
    the characters of the current match still to drop. *)
Fixpoint removeAllFrom (pat : string) (skip : nat) (s : string) : string :=
  match s with
  | EmptyString => EmptyString
  | String c s' =>
      match skip with
      | S k => removeAllFrom pat k s'
      | O =>
          if String.prefix pat s
          then removeAllFrom pat (String.length pat - 1) s'
          else String c (removeAllFrom pat 0 s')
      end
  end.

Definition removeAll (pat s : string) : string := removeAllFrom pat 0 s.

(** [indexOf] and [lastIndexOf] of a one-character string; [None] is [-1]. *)
Fixpoint indexOf (c : ascii) (s : string) : option nat :=
  match s with
  | EmptyString => None
  | String a s' => if Ascii.eqb a c then Some 0%nat else S <$> indexOf c s'
  end.

Fixpoint lastIndexOf (c : ascii) (s : string) : option nat :=
  match s with
  | EmptyString => None
  | String a s' =>
      match lastIndexOf c s' with
      | Some i => Some (S i)
      | None => if Ascii.eqb a c then Some 0%nat else None
      end
  end.

(** [s.substring(a, b)]: the arguments are swapped when [a > b]. *)
Definition js_substring (a b : nat) (s : string) : string :=
  String.substring (Nat.min a b) (Nat.max a b - Nat.min a b) s.

(** White space removed by [trim] (the ASCII part of it). *)
Definition isWhiteSpace (c : ascii) : bool :=
  let n := nat_of_ascii c in
  (n =? 32)%nat || ((9 <=? n)%nat && (n <=? 13)%nat).

Fixpoint trimStart (s : string) : string :=
  match s with
  | EmptyString => EmptyString
  | String c s' => if isWhiteSpace c then trimStart s' else s
  end.

Fixpoint trimEnd (s : string) : string :=
  match s with
  | EmptyString => EmptyString
  | String c s' =>
      match trimEnd s' with
      | EmptyString => if isWhiteSpace c then EmptyString else String c EmptyString
      | rest => String c rest
      end
  end.

Definition trim (s : string) : string := trimEnd (trimStart s).

Definition stripFences (text : string) : string :=
  removeAll "```" (removeAll "```json" text).

Definition cleanJson (text : string) : string :=
  let cleaned := stripFences text in
  let start := indexOf "{" cleaned in
  let end_ := lastIndexOf "}" cleaned in
  match start, end_ with
  | Some start, Some end_ => js_substring start (end_ + 1) cleaned
  | _, _ => trim cleaned
  end.

(** ** [JSON.parse]

    The host's JSON parser, written out after the JSON grammar (ECMA-404).
    Number lexemes and string contents are kept as written (escape sequences
    are checked but not decoded). *)
Module JSON.

#[warnings="-register-all"] Inductive value : Type :=
| Null
| Bool (b : bool)
| Number (lexeme : string)
| Str (contents : string)
| Array (items : list value)
| Object (members : list (string * value)).

Definition isChar (c : ascii) (lit : ascii) : bool := Ascii.eqb c lit.

Definition isSpace (c : ascii) : bool :=
  isChar c " " || isChar c "009" || isChar c "010" || isChar c "013".

Definition isDigit (c : ascii) : bool :=
  let n := nat_of_ascii c in (48 <=? n)%nat && (n <=? 57)%nat.

Definition isHex (c : ascii) : bool :=
  let n := nat_of_ascii c in
  isDigit c || ((65 <=? n)%nat && (n <=? 70)%nat) || ((97 <=? n)%nat && (n <=? 102)%nat).

Fixpoint skipSpace (s : string) : string :=
  match s with
  | EmptyString => EmptyString
  | String c s' => if isSpace c then skipSpace s' else s
  end.

(** The longest prefix of digits, and the rest. *)
Fixpoint digits (s : string) : string * string :=
  match s with
  | EmptyString => (EmptyString, EmptyString)
  | String c s' =>
      if isDigit c
      then let '(d, rest) := digits s' in (String c d, rest)
      else (EmptyString, s)
  end.

(** After the opening quote: the contents and what follows the closing
    quote. *)
Fixpoint stringBody (s : string) : option (string * string) :=
  match s with
  | EmptyString => None
  | String c r =>
      if isChar c "034" then Some (EmptyString, r)
      else if isChar c "092" then
        match r with
        | EmptyString => None
        | String e r' =>
            if isChar e "034" || isChar e "092" || isChar e "/" || isChar e "b" || isChar e "f"
               || isChar e "n" || isChar e "r" || isChar e "t"
            then '(body, rest) ← stringBody r'; Some (String c (String e body), rest)
            else if isChar e "u" then
              match r' with
              | String h1 (String h2 (String h3 (String h4 r''))) =>
                  if isHex h1 && isHex h2 && isHex h3 && isHex h4
                  then '(body, rest) ← stringBody r'';
                       Some (String c (String e (String h1 (String h2
                               (String h3 (String h4 body))))), rest)
                  else None
              | _ => None
              end
            else None
        end
      else if (nat_of_ascii c <? 32)%nat then None
      else '(body, rest) ← stringBody r; Some (String c body, rest)
  end.

(** [-? int frac? exp?] *)
Definition numberLexeme (s : string) : option (string * string) :=
  let '(sign, s1) :=
    match s with
    | String c r => if isChar c "-" then ("-"%string, r) else (EmptyString, s)
    | EmptyString => (EmptyString, s)
    end in
  let '(int, s2) := digits s1 in
  match int with
  | EmptyString => None
  | String d more =>
      if isChar d "0" && negb (String.eqb more EmptyString) then None
      else
        '(frac, s3) ←
          match s2 with
          | String c r =>
              if isChar c "." then
                let '(f, r') := digits r in
                if String.eqb f EmptyString then None
                else Some (String c f, r')
              else Some (EmptyString, s2)
          | EmptyString => Some (EmptyString, s2)
          end;
        '(exp, s4) ←
          match s3 with
          | String c r =>
              if isChar c "e" || isChar c "E" then
                let '(sg, r1) :=
                  match r with
                  | String g r0 =>
                      if isChar g "+" || isChar g "-" then (String g EmptyString, r0)
                      else (EmptyString, r)
                  | EmptyString => (EmptyString, r)
                  end in
                let '(e, r2) := digits r1 in
                if String.eqb e EmptyString then None
                else Some ((String c sg ++ e)%string, r2)
              else Some (EmptyString, s3)
          | EmptyString => Some (EmptyString, s3)
          end;
        Some ((sign ++ int ++ frac ++ exp)%string, s4)
  end.

(** [literal lit s]: what follows [lit] at the head of [s]. *)
Fixpoint literal (lit s : string) : option string :=
  match lit, s with
  | EmptyString, _ => Some s
  | String a lit', String b s' => if Ascii.eqb a b then literal lit' s' else None
  | String _ _, EmptyString => None
  end.

(** One value at the head of [s] (after white space), and the rest.  Each
    call and each loop round consumes a character, so [fuel] above the
    length of [s] is never exhausted. *)
Fixpoint parseValue (fuel : nat) (s : string) {struct fuel}
    : option (value * string) :=
  match fuel with
  | O => None
  | S fuel' =>
      match skipSpace s with
      | EmptyString => None
      | String c r as s0 =>
          if isChar c "n" then rest ← literal "null" s0; Some (Null, rest)
          else if isChar c "t" then rest ← literal "true" s0; Some (Bool true, rest)
          else if isChar c "f" then rest ← literal "false" s0; Some (Bool false, rest)
          else if isChar c "034" then
            '(body, rest) ← stringBody r; Some (Str body, rest)
          else if isChar c "[" then
            match skipSpace r with
            | EmptyString => None
            | String c1 r1 as inner =>
                if isChar c1 "]" then Some (Array [], r1)
                else
                  (fix elements (k : nat) (acc : list value) (s : string)
                       {struct k} : option (value * string) :=
                     match k with
                     | O => None
                     | S k' =>
                         '(v, rest) ← parseValue fuel' s;
                         match skipSpace rest with
                         | String d rest' =>
                             if isChar d "," then elements k' (acc ++ [v]) rest'
                             else if isChar d "]" then Some (Array (acc ++ [v]), rest')
                             else None
                         | EmptyString => None
                         end
                     end) fuel' [] inner
            end
          else if isChar c "{" then
            match skipSpace r with
            | EmptyString => None
            | String c1 r1 as inner =>
                if isChar c1 "}" then Some (Object [], r1)
                else
                  (fix members (k : nat) (acc : list (string * value)) (s : string)
                       {struct k} : option (value * string) :=
                     match k with
                     | O => None
                     | S k' =>
                         match skipSpace s with
                         | String q s1 =>
                             if isChar q "034" then
                               '(key, s2) ← stringBody s1;
                               match skipSpace s2 with
                               | String colon s3 =>
                                   if isChar colon ":" then
                                     '(v, rest) ← parseValue fuel' s3;
                                     match skipSpace rest with
                                     | String d rest' =>
                                         if isChar d ","
                                         then members k' (acc ++ [(key, v)]) rest'
                                         else if isChar d "}"
                                         then Some (Object (acc ++ [(key, v)]), rest')
                                         else None
                                     | EmptyString => None
                                     end
                                   else None
                               | EmptyString => None
                               end
                             else None
                         | EmptyString => None
                         end
                     end) fuel' [] inner
            end
          else '(lexeme, rest) ← numberLexeme s0; Some (Number lexeme, rest)
      end
  end.

(** [JSON.parse(text)]; [None] stands for the thrown [SyntaxError]. *)
Definition parse (text : string) : option value :=
  match parseValue (S (String.length text)) text with
  | Some (v, rest) =>
      match skipSpace rest with
      | EmptyString => Some v
      | String _ _ => None
      end
  | None => None
  end.

End JSON.

(** ** Response validation (the inner [try] of [interpretVoiceCommand]) *)

Inductive validation : Type :=
| Parsed (result : JSON.value)
| InvalidResponse
| NotUnderstood.

(** [if (response.text) { try { result = JSON.parse(cleanJson(response.text)) }
    catch { throw Error("... (Invalid Response).") } ... }
    throw Error("I couldn't understand what you mean.")] *)
Definition validateResponse (text : string) : validation :=
  if truthy text then
    match JSON.parse (cleanJson text) with
    | Some result => Parsed result
    | None => InvalidResponse
    end
  else NotUnderstood.

(** ** Notions used in the statements *)

(** Numeric equality of two numbers (rationals up to [==]). *)
Definition sameNumber (a b : number) : Prop :=
  match a, b with
  | Fin p, Fin q => p == q
  | NaN, NaN | PosInf, PosInf | NegInf, NegInf => True
  | _, _ => False
  end.

(** [r] is [v] clamped into [[-10, 10]]. *)
Definition clampedTo10 (v r : Q) : Prop :=
  -10 <= r <= 10 /\
  (v < -10 -> r == -10) /\ (-10 <= v <= 10 -> r == v) /\ (10 < v -> r == 10).

(** The width window the wheel handler maintains: its two thresholds, each
    stretched by one application of the factor that crosses it. *)
Definition inZoomWindow (render : Render.t) : Prop :=
  100 * 0.9 <= widthOf render <= 4000 * 1.1.

(** A contact point is usable by the effect layer when both coordinates are
    finite. *)
Definition finitePoint (p : Point.t) : bool :=
  isFinite (Point.x p) && isFinite (Point.y p).

(** The bodies of a scene state ([null] has none). *)
Definition bodiesOf (st : option SceneConfig.t) : list BodyDef.t :=
  match st with
  | Some s => SceneConfig.bodies s
  | None => []
  end.

Definition constraintsOf (st : option SceneConfig.t) : list ConstraintDef.t :=
  match st with
  | Some s => SceneConfig.constraints s
  | None => []
  end.

(** The body list after the update pass. *)
Definition updatePass (updatedBodies : list BodyUpdate.t) (bodies : list BodyDef.t)
    : list BodyDef.t :=
  fold_left processUpdate updatedBodies bodies.

(** The same command with another [updatedBodies] list. *)
Definition withUpdatedBodies (response : VoiceCommandResponse.t)
    (updatedBodies : option (list BodyUpdate.t)) : VoiceCommandResponse.t :=
  {| VoiceCommandResponse.summary := VoiceCommandResponse.summary response;
     VoiceCommandResponse.newBodies := VoiceCommandResponse.newBodies response;
     VoiceCommandResponse.updatedBodies := updatedBodies;
     VoiceCommandResponse.newConstraints := VoiceCommandResponse.newConstraints response;
     VoiceCommandResponse.removeBodyIds := VoiceCommandResponse.removeBodyIds response |}.

(** [updated] is [old] with exactly the fields that [u] defines taken from
    [u], and every other field as in [old]. *)
Definition overwrittenBy (old : BodyDef.t) (u : BodyUpdate.t) (updated : BodyDef.t)
    : Prop :=
  BodyDef.id updated = BodyDef.id old /\
  BodyDef.type updated = over (BodyDef.type old) (BodyUpdate.type u) /\
  BodyDef.x updated = over (BodyDef.x old) (BodyUpdate.x u) /\
  BodyDef.y updated = over (BodyDef.y old) (BodyUpdate.y u) /\
  BodyDef.width updated = overOpt (BodyDef.width old) (BodyUpdate.width u) /\
  BodyDef.height updated = overOpt (BodyDef.height old) (BodyUpdate.height u) /\
  BodyDef.radius updated = overOpt (BodyDef.radius old) (BodyUpdate.radius u) /\
  BodyDef.angle updated = overOpt (BodyDef.angle old) (BodyUpdate.angle u) /\
  BodyDef.isStatic updated = over (BodyDef.isStatic old) (BodyUpdate.isStatic u) /\
  BodyDef.color updated = overOpt (BodyDef.color old) (BodyUpdate.color u) /\
  BodyDef.friction updated = overOpt (BodyDef.friction old) (BodyUpdate.friction u).

(** Every id that [c] refers to is the id of one of [bodies]. *)
Definition resolves (bodies : list BodyDef.t) (c : ConstraintDef.t) : Prop :=
  Forall (fun r => r ∈ bodyRefs bodies) (references c).

(** Whether the character [c] occurs in [s]. *)
Fixpoint occurs (c : ascii) (s : string) : bool :=
  match s with
  | EmptyString => false
  | String a s' => Ascii.eqb a c || occurs c s'
  end.

(** The outcome of validating a text that cleans to [cleaned]. *)
Definition parsedOrInvalid (cleaned : string) : validation :=
  match JSON.parse cleaned with
  | Some result => Parsed result
  | None => InvalidResponse
  end.

(** ** Sample data *)

(** The render right after the initial [Render.lookAt]. *)
Definition initialRender (canvas_width canvas_height : Q) : Render.t :=
  {| Render.bounds := initialView;
     Render.canvas_width := canvas_width;
     Render.canvas_height := canvas_height |}.

(** A render whose box is exactly 4000 wide. *)
Definition render4000 : Render.t :=
  {| Render.bounds :=
       {| Bounds.min := {| Vector.x := 0; Vector.y := 0 |};
          Bounds.max := {| Vector.x := 4000; Vector.y := 3000 |} |};
     Render.canvas_width := 800;
     Render.canvas_height := 600 |}.

(** An effect three frames old at a finite point, and a contact point with a
    [NaN] coordinate. *)
Definition activeFlash : Flash.t :=
  {| Flash.x := Fin 10; Flash.y := Fin 20; Flash.frame := 3 |}.

Definition nanPoint : Point.t := {| Point.x := NaN; Point.y := Fin 5 |}.

(** A dynamic circle as the vision service would describe it. *)
Definition ball (id : string) : BodyDef.t :=
  {| BodyDef.id := id; BodyDef.type := "circle";
     BodyDef.x := Fin 400; BodyDef.y := Fin 200;
     BodyDef.width := None; BodyDef.height := None; BodyDef.radius := Some (Fin 20);
     BodyDef.angle := None; BodyDef.isStatic := false;
     BodyDef.color := None; BodyDef.friction := Some (Fin 0.1) |}.

(** A rigid link from [a] to [b] (or to the world origin when [b] is
    missing). *)
Definition link (a : string) (b : option string) : ConstraintDef.t :=
  {| ConstraintDef.bodyAId := Str a; ConstraintDef.bodyBId := Str <$> b;
     ConstraintDef.pointB := None; ConstraintDef.stiffness := None;
     ConstraintDef.length := None |}.

Definition command (newBodies : option (list BodyDef.t))
    (updatedBodies : option (list BodyUpdate.t))
    (newConstraints : option (list ConstraintDef.t))
    (removeBodyIds : option (list string)) : VoiceCommandResponse.t :=
  {| VoiceCommandResponse.summary := Some "ok"%string;
     VoiceCommandResponse.newBodies := newBodies;
     VoiceCommandResponse.updatedBodies := updatedBodies;
     VoiceCommandResponse.newConstraints := newConstraints;
     VoiceCommandResponse.removeBodyIds := removeBodyIds |}.

(** A fragment that sets nothing but the friction of [id]. *)
Definition frictionUpdate (id : string) (friction : Q) : BodyUpdate.t :=
  {| BodyUpdate.id := id; BodyUpdate.type := None;
     BodyUpdate.x := None; BodyUpdate.y := None;
     BodyUpdate.width := None; BodyUpdate.height := None; BodyUpdate.radius := None;
     BodyUpdate.angle := None; BodyUpdate.isStatic := None;
     BodyUpdate.color := None; BodyUpdate.friction := Some (Fin friction) |}.

(** Sample reply texts.  [dq] is the double quote, [nl] the line feed. *)
Definition dq : string := String "034" EmptyString.
Definition nl : string := String "010" EmptyString.

(** The members and the text of the object with the one member
    [summary: ok]. *)
Definition summaryMembers : string :=
  (dq ++ "summary" ++ dq ++ ":" ++ dq ++ "ok" ++ dq)%string.

Definition summaryObject : string := String "{" (summaryMembers ++ "}").

(** ** Further notions used in the statements *)

(** [n] is a real number in [[lo, hi]]. *)
Definition inRange (lo hi : Q) (n : number) : Prop :=
  match n with
  | Fin q => lo <= q <= hi
  | NaN | PosInf | NegInf => False
  end.


(** A body the world builder does not skip: both coordinates are finite. *)
Definition finiteBody (def : BodyDef.t) : bool :=
  isFinite (BodyDef.x def) && isFinite (BodyDef.y def).

(** ** Body styling and shape ([sceneConfig.bodies.forEach] of the canvas) *)

(** The JavaScript comparison [a < b] on numbers: false when either side is
    [NaN]. *)
Definition lessThan (a b : number) : bool :=
  match a, b with
  | NaN, _ | _, NaN => false
  | Fin p, Fin q => Qltb p q
  | NegInf, NegInf => false
  | NegInf, _ => true
  | _, NegInf => false
  | PosInf, _ => false
  | _, PosInf => true
  end.

(** [def.friction !== undefined ? def.friction : 0.1] *)
Definition frictionOf (def : BodyDef.t) : number :=
  over (Fin 0.1) (BodyDef.friction def).

Definition strokeColor (friction : number) : string :=
  if lessThan friction (Fin 0.05) then "#67e8f9"
  else if lessThan (Fin 0.5) friction then "#fbbf24"
  else "#fff".

Definition lineWidth (friction : number) : nat :=
  if lessThan (Fin 0.5) friction || lessThan friction (Fin 0.05) then 4%nat else 2%nat.

(** [field || d] for an optional numeric field. *)
Definition orDefault (field : option number) (d : Q) : number :=
  match field with
  | Some n => if truthyNumber n then n else Fin d
  | None => Fin d
  end.

(** The arguments of [Bodies.circle] and [Bodies.rectangle]. *)
Inductive shape : Type :=
| circle (x y radius : number)
| rectangle (x y width height : number).

(** The shape handed to Matter.js for a body; [None] when the body is skipped
    for a non-finite coordinate. *)
Definition bodyShape (def : BodyDef.t) : option shape :=
  if negb (isFinite (BodyDef.x def)) || negb (isFinite (BodyDef.y def)) then None
  else if String.eqb (BodyDef.type def) "circle"
  then Some (circle (BodyDef.x def) (BodyDef.y def) (orDefault (BodyDef.radius def) 20))
  else Some (rectangle (BodyDef.x def) (BodyDef.y def)
                       (orDefault (BodyDef.width def) 100)
                       (orDefault (BodyDef.height def) 20)).

Definition origin : Point.t := {| Point.x := Fin 0; Point.y := Fin 0 |}.

(** [b => !idsToRemove.includes(b.id)], on a body and on its id. *)
Definition keptBody (idsToRemove : list string) (b : BodyDef.t) : bool :=
  negb (includes idsToRemove (BodyDef.id b)).

Definition keptId (idsToRemove : list string) (id : string) : bool :=
  negb (includes idsToRemove id).

(** The guard of the first state update: something to add or to update. *)
Definition hasAdditions (response : VoiceCommandResponse.t) : bool :=
  nonEmpty (VoiceCommandResponse.newBodies response)
  || nonEmpty (VoiceCommandResponse.newConstraints response)
  || nonEmpty (VoiceCommandResponse.updatedBodies response).

(** Height and centre of a box. *)
Definition boxHeight (b : Bounds.t) : Q :=
  Vector.y (Bounds.max b) - Vector.y (Bounds.min b).

Definition centerX (b : Bounds.t) : Q :=
  (Vector.x (Bounds.min b) + Vector.x (Bounds.max b)) / 2.

Definition centerY (b : Bounds.t) : Q :=
  (Vector.y (Bounds.min b) + Vector.y (Bounds.max b)) / 2.

(** The alpha of the spark's fill style, [0.8 - flash.frame / 12]. *)
Definition sparkOpacity (frame : nat) : Q :=
  0.8 - inject_Z (Z.of_nat frame) / 12.

(** The slot a contact at [p] leaves. *)
Definition flashAt (p : Point.t) : Flash.t :=
  {| Flash.x := Point.x p; Flash.y := Point.y p; Flash.frame := 0 |}.

(** ** Physics updates and the toast ([mediaRecorder.onstop] in [src/App.tsx]) *)

(** [physicsUpdates.gravity]: the response schema requires neither axis. *)
Module GravityUpdate.
Record t : Type := mk { x : option number; y : option number }.
End GravityUpdate.

(** [Partial<PhysicsState>] *)
Module PhysicsUpdates.
Record t : Type := mk {
  gravity : option GravityUpdate.t;
  timeScale : option number;
  enableCollisionEffects : option bool
}.
End PhysicsUpdates.

(** [{ ...prev, ...response.physicsUpdates,
       gravity: { ...prev.gravity, ...(response.physicsUpdates?.gravity || {}) } }] *)
Definition applyPhysicsUpdates (physicsUpdates : PhysicsUpdates.t)
    (prev : PhysicsState.t) : PhysicsState.t :=
  {| PhysicsState.gravity :=
       match PhysicsUpdates.gravity physicsUpdates with
       | Some g =>
           {| Gravity.x := over (Gravity.x (PhysicsState.gravity prev)) (GravityUpdate.x g);
              Gravity.y := over (Gravity.y (PhysicsState.gravity prev)) (GravityUpdate.y g) |}
       | None =>
           {| Gravity.x := Gravity.x (PhysicsState.gravity prev);
              Gravity.y := Gravity.y (PhysicsState.gravity prev) |}
       end;
     PhysicsState.timeScale :=
       over (PhysicsState.timeScale prev) (PhysicsUpdates.timeScale physicsUpdates);
     PhysicsState.enableCollisionEffects :=
       over (PhysicsState.enableCollisionEffects prev)
            (PhysicsUpdates.enableCollisionEffects physicsUpdates) |}.

(** [if (response.physicsUpdates) setPhysicsState(...)] *)
Definition updatePhysics (physicsUpdates : option PhysicsUpdates.t)
    (prev : PhysicsState.t) : PhysicsState.t :=
  match physicsUpdates with
  | Some u => applyPhysicsUpdates u prev
  | None => prev
  end.

(** [Object.keys(response.physicsUpdates).length > 0] *)
Definition hasKeys (physicsUpdates : PhysicsUpdates.t) : bool :=
  match PhysicsUpdates.gravity physicsUpdates,
        PhysicsUpdates.timeScale physicsUpdates,
        PhysicsUpdates.enableCollisionEffects physicsUpdates with
  | None, None, None => false
  | _, _, _ => true
  end.

(** The flag [commandExecuted] after the three blocks. *)
Definition commandExecuted (physicsUpdates : option PhysicsUpdates.t)
    (response : VoiceCommandResponse.t) : bool :=
  match physicsUpdates with
  | Some u => hasKeys u
  | None => false
  end
  || hasAdditions response
  || nonEmpty (VoiceCommandResponse.removeBodyIds response).

Inductive toast : Type :=
| success (msg : string)
| error (msg : string).

(** Truthiness of an optional string. *)
Definition truthyOpt (s : option string) : bool :=
  match s with
  | Some s => truthy s
  | None => false
  end.

Definition showToastFor (physicsUpdates : option PhysicsUpdates.t)
    (response : VoiceCommandResponse.t) : toast :=
  if commandExecuted physicsUpdates response
     || truthyOpt (VoiceCommandResponse.summary response)
  then success (if truthyOpt (VoiceCommandResponse.summary response)
                then over EmptyString (VoiceCommandResponse.summary response)
                else "Command executed.")
  else error "Command not understood or no changes required.".

(** ** Capture size ([handleCapture] in [src/App.tsx]) *)

(** [Math.round]: the nearest integer, halves upwards. *)
Definition Math_round (q : Q) : Z := Qfloor (q + (1 # 2))%Q.

Definition MAX_DIMENSION : Z := 640.

(** The canvas size chosen for a video frame of the given size. *)
Definition captureSize (videoWidth videoHeight : Z) : Z * Z :=
  let width := videoWidth in
  let height := videoHeight in
  if (width >? height)%Z then
    if (width >? MAX_DIMENSION)%Z
    then (MAX_DIMENSION,
          Math_round (inject_Z height * (inject_Z MAX_DIMENSION / inject_Z width))%Q)
    else (width, height)
  else
    if (height >? MAX_DIMENSION)%Z
    then (Math_round (inject_Z width * (inject_Z MAX_DIMENSION / inject_Z height))%Q,
          MAX_DIMENSION)
    else (width, height).

(** ** Base64 part of a data URL ([blobToBase64] in [src/App.tsx]) *)

(** [s.split(',')]: the pieces between the commas. *)
Fixpoint splitComma (s : string) : list string :=
  match s with
  | EmptyString => [EmptyString]
  | String c s' =>
      if Ascii.eqb c ","
      then EmptyString :: splitComma s'
      else match splitComma s' with
           | piece :: pieces => String c piece :: pieces
           | [] => [String c EmptyString]
           end
  end.

(** [result.split(',')[1]]; [None] is [undefined]. *)
Definition base64Part (result : string) : option string :=
  splitComma result !! 1%nat.

(** ** Errors of [interpretVoiceCommand] *)

(** [haystack.includes(needle)] *)
Fixpoint includesText (needle haystack : string) : bool :=
  String.prefix needle haystack
  || match haystack with
     | EmptyString => false
     | String _ rest => includesText needle rest
     end.

Definition TIMED_OUT_MESSAGE : string :=
  "I couldn't understand what you mean (Request Timed Out).".

Definition INVALID_RESPONSE_MESSAGE : string :=
  "I heard you, but I couldn't process the command (Invalid Response).".

Definition NOT_UNDERSTOOD_MESSAGE : string := "I couldn't understand what you mean.".

Definition AUDIO_TOO_SHORT_MESSAGE : string := "Audio recording was too short or empty.".

(** The message of [timeoutPromise(30000)]'s rejection. *)
Definition TIMEOUT_REJECTION : string := "Request timed out after 30s".

(** The [catch] of [interpretVoiceCommand]: the message thrown on for an
    error with the given message. *)
Definition friendlyError (message : string) : string :=
  if includesText "timed out" message then TIMED_OUT_MESSAGE
  else if includesText "Invalid Response" message then message
  else NOT_UNDERSTOOD_MESSAGE.

(** [!audioBase64 || audioBase64.length < 100] *)
Definition audioTooShort (audioBase64 : option string) : bool :=
  match audioBase64 with
  | Some a => negb (truthy a) || (String.length a <? 100)%nat
  | None => true
  end.

(** What the service call came to: the time-out won the race, the call was
    rejected with an error, or it answered with a text ([None] when
    [response.text] is [undefined], which is falsy like the empty string). *)
Inductive reply : Type :=
| timedOut
| rejected (message : string)
| replied (text : option string).

(** [interpretVoiceCommand] up to the parsed result: the error message it
    throws, or the value it goes on to post-process. *)
Definition interpretReply (audioBase64 : option string) (r : reply)
    : string + JSON.value :=
  if audioTooShort audioBase64 then inl AUDIO_TOO_SHORT_MESSAGE
  else
    match r with
    | timedOut => inl (friendlyError TIMEOUT_REJECTION)
    | rejected message => inl (friendlyError message)
    | replied text =>
        match validateResponse (over EmptyString text) with
        | Parsed result => inr result
        | InvalidResponse => inl (friendlyError INVALID_RESPONSE_MESSAGE)
        | NotUnderstood => inl (friendlyError NOT_UNDERSTOOD_MESSAGE)
        end
    end.

(** * Properties *)

(** ** Numeric sanitizer *)

Example sanitize_above_range :
  sanitizeNumber (Some (Fin 5)) (Fin 0) (Fin 1) (Some (Fin 0.1)) = Fin 1.
Proof. reflexivity. Qed.

Example sanitize_missing_field :
  sanitizeNumber None (Fin 1) (Fin 400) (Some (Fin 20)) = Fin 20.
Proof. reflexivity. Qed.

Lemma Qle_bool_true (a b : Q) : a <= b -> Qle_bool a b = true.
Proof. apply Qle_bool_iff. Qed.

Lemma Qle_bool_false (a b : Q) : b < a -> Qle_bool a b = false.
Proof.
  intros H. destruct (Qle_bool a b) eqn:E; [|reflexivity].
  apply Qle_bool_iff in E. lra.
Qed.

Lemma Qle_bool_cases (a b : Q) :
  (a <= b /\ Qle_bool a b = true) \/ (b < a /\ Qle_bool a b = false).
Proof.
  destruct (Qlt_le_dec b a) as [H|H].
  - right. split; [exact H | now apply Qle_bool_false].
  - left. split; [exact H | now apply Qle_bool_true].
Qed.

(** The clamp of a finite number, as a three-way case split. *)
Lemma clamp_cases (n lo hi : Q) :
  lo <= hi ->
  exists r, Math_min (Math_max (Fin n) (Fin lo)) (Fin hi) = Fin r /\
    lo <= r <= hi /\
    (n < lo -> r = lo) /\ (lo <= n <= hi -> r = n) /\ (hi < n -> r = hi).
Proof.
  intros Hlh. simpl.
  destruct (Qle_bool_cases lo n) as [[H1 ->]|[H1 ->]].
  - simpl. destruct (Qle_bool_cases n hi) as [[H2 ->]|[H2 ->]].
    + exists n. repeat split; try lra; reflexivity.
    + exists hi. repeat split; try lra; reflexivity.
  - simpl. rewrite (Qle_bool_true lo hi Hlh).
    exists lo. repeat split; try lra; reflexivity.
Qed.

Lemma clamp_fixed (r lo hi : Q) :
  lo <= r <= hi -> Math_min (Math_max (Fin r) (Fin lo)) (Fin hi) = Fin r.
Proof.
  intros [H1 H2]. simpl.
  rewrite (Qle_bool_true lo r H1). simpl.
  now rewrite (Qle_bool_true r hi H2).
Qed.

(** Counterexample to C5 as stated: the fallback is returned as it is, so
    a fallback that is no real number comes back as the result.  The update
    path calls the sanitizer with the field as its own fallback: an infinite
    [x] of an update fragment stays infinite. *)
Lemma nonfinite_fallback_is_returned :
  sanitizeNumber (Some NaN) (Fin 0) (Fin 1) (Some NaN) = NaN /\
  sanitizeNumber None (Fin 0) (Fin 1) (Some PosInf) = PosInf /\
  BodyUpdate.x
    (sanitizeUpdatedBody
       {| BodyUpdate.id := "box"; BodyUpdate.type := None;
          BodyUpdate.x := Some PosInf; BodyUpdate.y := None;
          BodyUpdate.width := None; BodyUpdate.height := None;
          BodyUpdate.radius := None; BodyUpdate.angle := None;
          BodyUpdate.isStatic := None; BodyUpdate.color := None;
          BodyUpdate.friction := None |})
  = Some PosInf.
Proof. repeat split. Qed.

(** C5, amended.  For real bounds [min <= max]: a real value is clamped into
    [[min, max]]; for a missing, [NaN] or infinite value the result is the
    fallback as it is given, or [min] when there is none.  Hence the result
    is a real number whenever the fallback is a real number or absent, but
    not for every input.  When the fallback lies in [[min, max]] (or is
    absent) the result does too, and sanitizing it again gives it back. *)
Theorem sanitizeNumber_total_idempotent
    (val : option number) (lo hi : Q) (fallback : option number) :
  lo <= hi ->
  let san v := sanitizeNumber v (Fin lo) (Fin hi) fallback in
  match val with
  | Some (Fin n) =>
      exists r, san val = Fin r /\ lo <= r <= hi /\
        (n < lo -> r = lo) /\ (lo <= n <= hi -> r = n) /\ (hi < n -> r = hi)
  | Some NaN | Some PosInf | Some NegInf | None =>
      san val = over (Fin lo) fallback
  end /\
  ((forall f, fallback = Some f -> isFinite f = true) ->
   exists r, san val = Fin r) /\
  ((forall f, fallback = Some f -> inRange lo hi f) ->
   (exists r, san val = Fin r /\ lo <= r <= hi) /\
   san (Some (san val)) = san val).
Proof.
  intros Hlh san.
  assert (Hcl : forall n, san (Some (Fin n))
                          = Math_min (Math_max (Fin n) (Fin lo)) (Fin hi))
    by reflexivity.
  assert (Hfb : match val with
                | Some (Fin _) => True
                | _ => san val = over (Fin lo) fallback
                end).
  { destruct val as [[n| | |]|]; try exact I; unfold san, sanitizeNumber; simpl;
      destruct fallback; reflexivity. }
  split; [|split].
  - destruct val as [[n| | |]|]; try exact Hfb.
    destruct (clamp_cases n lo hi Hlh) as (r & Hr & Hb & Hc).
    exists r. rewrite Hcl. auto.
  - intros Hf.
    destruct val as [[n| | |]|];
      try (rewrite Hfb; destruct fallback as [f|]; cbn [over];
           [specialize (Hf f eq_refl); destruct f; try discriminate; eauto
           | eauto]).
    destruct (clamp_cases n lo hi Hlh) as (r & Hr & _).
    exists r. now rewrite Hcl.
  - intros Hf.
    assert (Hin : exists r, san val = Fin r /\ lo <= r <= hi).
    { destruct val as [[n| | |]|];
        try (rewrite Hfb; destruct fallback as [f|]; cbn [over];
             [specialize (Hf f eq_refl); destruct f as [q| | |];
              cbn [inRange] in Hf; try contradiction; exists q; auto
             | exists lo; split; [reflexivity | lra]]).
      destruct (clamp_cases n lo hi Hlh) as (r & Hr & Hb & _).
      exists r. rewrite Hcl. auto. }
    split; [exact Hin|].
    destruct Hin as (r & Hr & Hb). rewrite Hr, Hcl. now apply clamp_fixed.
Qed.

(** A value above the range ends on the upper bound, and stays there. *)
Lemma sanitizeNumber_total_idempotent_witness :
  sanitizeNumber (Some (Fin 5)) (Fin 0) (Fin 1) (Some (Fin 0.1)) = Fin 1 /\
  sanitizeNumber
    (Some (sanitizeNumber (Some (Fin 5)) (Fin 0) (Fin 1) (Some (Fin 0.1))))
    (Fin 0) (Fin 1) (Some (Fin 0.1))
  = sanitizeNumber (Some (Fin 5)) (Fin 0) (Fin 1) (Some (Fin 0.1)) /\
  sanitizeNumber None (Fin 0) (Fin 1) (Some (Fin 0.1)) = Fin 0.1.
Proof.
  assert (H01 : 0 <= 1) by lra.
  destruct (sanitizeNumber_total_idempotent (Some (Fin 5)) 0 1 (Some (Fin 0.1)) H01)
    as ((r & Hr & _ & _ & _ & Hhi) & _ & Hidem).
  destruct (sanitizeNumber_total_idempotent None 0 1 (Some (Fin 0.1)) H01)
    as (Hmissing & _).
  split; [|split].
  - rewrite Hr. f_equal. apply Hhi. lra.
  - apply Hidem. intros f Hf. injection Hf as <-. cbn [inRange]. lra.
  - exact Hmissing.
Defined.

(** ** Gravity normalisation *)

Lemma clampAxis_finite (v : Q) (fallback : number) :
  exists r, clampAxis (Fin v) fallback = Fin r /\ clampedTo10 v r.
Proof.
  assert (H : -10 <= 10) by lra.
  destruct (clamp_cases v (-10) 10 H) as (r & Hr & Hb & H1 & H2 & H3).
  exists r. split; [exact Hr|].
  unfold clampedTo10. repeat split; try lra.
  - intros Hv. rewrite (H1 Hv). reflexivity.
  - intros Hv. rewrite (H2 Hv). reflexivity.
  - intros Hv. rewrite (H3 Hv). reflexivity.
Qed.

Lemma scaled_finite (g : Q) :
  times (Fin g) GRAVITY_SCALE_FACTOR = Fin (g * (1 / 9.81)).
Proof. reflexivity. Qed.

Lemma scaled_nonfinite (g : number) :
  isFinite g = false -> isFinite (times g GRAVITY_SCALE_FACTOR) = false.
Proof. destruct g; [discriminate| | |]; reflexivity. Qed.

(** C4. Gravity normalisation multiplies each axis by 1/9.81 and clamps it
    to [[-10, 10]], each axis on its own: a real axis is scaled and clamped
    whatever the other axis is.  Earth gravity (0, 9.81) becomes (0, 1);
    (0, 24.79) becomes a vertical component of 24.79/9.81, about 2.527 and
    below 10; an axis whose scaled value is not finite (which is the case
    exactly when the axis itself is not finite) becomes 0 (horizontal) or 1
    (vertical), so (NaN, Infinity) becomes (0, 1). *)
Theorem normalizeGravity_scales_and_clamps :
  (forall g : Gravity.t,
      (forall gx : Q, Gravity.x g = Fin gx ->
         exists rx, Gravity.x (normalizeGravity g) = Fin rx /\
                    clampedTo10 (gx * (1 / 9.81)) rx) /\
      (forall gy : Q, Gravity.y g = Fin gy ->
         exists ry, Gravity.y (normalizeGravity g) = Fin ry /\
                    clampedTo10 (gy * (1 / 9.81)) ry)) /\
  (forall gx gy : Q,
      exists rx ry,
        normalizeGravity {| Gravity.x := Fin gx; Gravity.y := Fin gy |}
        = {| Gravity.x := Fin rx; Gravity.y := Fin ry |} /\
        clampedTo10 (gx * (1 / 9.81)) rx /\ clampedTo10 (gy * (1 / 9.81)) ry) /\
  (sameNumber
     (Gravity.x (normalizeGravity {| Gravity.x := Fin 0; Gravity.y := Fin 9.81 |}))
     (Fin 0) /\
   sameNumber
     (Gravity.y (normalizeGravity {| Gravity.x := Fin 0; Gravity.y := Fin 9.81 |}))
     (Fin 1)) /\
  (exists ry,
      Gravity.y (normalizeGravity {| Gravity.x := Fin 0; Gravity.y := Fin 24.79 |})
      = Fin ry /\
      ry == 24.79 / 9.81 /\ 2.5265 < ry < 2.5275 /\ ry <= 10) /\
  (forall g : Gravity.t,
      (isFinite (times (Gravity.x g) GRAVITY_SCALE_FACTOR) = false ->
       Gravity.x (normalizeGravity g) = Fin 0) /\
      (isFinite (times (Gravity.y g) GRAVITY_SCALE_FACTOR) = false ->
       Gravity.y (normalizeGravity g) = Fin 1) /\
      (isFinite (times (Gravity.x g) GRAVITY_SCALE_FACTOR) = isFinite (Gravity.x g)) /\
      (isFinite (times (Gravity.y g) GRAVITY_SCALE_FACTOR) = isFinite (Gravity.y g))) /\
  normalizeGravity {| Gravity.x := NaN; Gravity.y := PosInf |}
  = {| Gravity.x := Fin 0; Gravity.y := Fin 1 |}.
Proof.
  split; [|split; [|split; [|split; [|split]]]].
  - intros g. unfold normalizeGravity. cbn [Gravity.x Gravity.y]. split.
    + intros gx ->. rewrite scaled_finite. apply clampAxis_finite.
    + intros gy ->. rewrite scaled_finite. apply clampAxis_finite.
  - intros gx gy. unfold normalizeGravity. cbn [Gravity.x Gravity.y].
    rewrite !scaled_finite.
    destruct (clampAxis_finite (gx * (1 / 9.81)) (Fin 0)) as (rx & -> & Hx).
    destruct (clampAxis_finite (gy * (1 / 9.81)) (Fin 1)) as (ry & -> & Hy).
    exists rx, ry. auto.
  - split; vm_compute; reflexivity.
  - eexists. split; [vm_compute; reflexivity|].
    repeat split; vm_compute; congruence.
  - intros g. unfold normalizeGravity, clampAxis. cbn [Gravity.x Gravity.y].
    split; [intros ->; reflexivity|]. split; [intros ->; reflexivity|].
    split.
    + destruct (Gravity.x g); reflexivity.
    + destruct (Gravity.y g); reflexivity.
  - reflexivity.
Qed.

(** A vector with one real and one non-finite axis: the real axis is scaled
    (9.81 becomes 1), only the other one falls back. *)
Lemma normalizeGravity_scales_and_clamps_witness :
  (exists rx,
      Gravity.x (normalizeGravity {| Gravity.x := Fin 9.81; Gravity.y := NaN |})
      = Fin rx /\ rx == 1) /\
  Gravity.y (normalizeGravity {| Gravity.x := Fin 9.81; Gravity.y := NaN |}) = Fin 1 /\
  Gravity.x (normalizeGravity {| Gravity.x := NegInf; Gravity.y := Fin (-981) |})
  = Fin 0 /\
  (exists ry,
      Gravity.y (normalizeGravity {| Gravity.x := NegInf; Gravity.y := Fin (-981) |})
      = Fin ry /\ ry == -10).
Proof.
  destruct normalizeGravity_scales_and_clamps as (Hfin & _ & _ & _ & Hnon & _).
  split; [|split; [|split]].
  - destruct (Hfin {| Gravity.x := Fin 9.81; Gravity.y := NaN |}) as [Hx _].
    destruct (Hx 9.81 eq_refl) as (rx & Hr & _ & _ & Hmid & _).
    exists rx. split; [exact Hr|].
    rewrite Hmid; [vm_compute; reflexivity|].
    split; apply Qle_bool_iff; reflexivity.
  - destruct (Hnon {| Gravity.x := Fin 9.81; Gravity.y := NaN |}) as (_ & Hy & _).
    apply Hy. reflexivity.
  - destruct (Hnon {| Gravity.x := NegInf; Gravity.y := Fin (-981) |}) as (Hx & _).
    apply Hx. reflexivity.
  - destruct (Hfin {| Gravity.x := NegInf; Gravity.y := Fin (-981) |}) as [_ Hy].
    destruct (Hy (-981) eq_refl) as (ry & Hr & _ & Hlow & _).
    exists ry. split; [exact Hr|]. apply Hlow. vm_compute. reflexivity.
Defined.

(** The quoted inputs in double precision: Earth gravity gives exactly
    (0, 1), Jupiter's 24.79 gives 2.5270132517838939, and (NaN, Infinity)
    gives the default (0, 1). *)
Example gravity_in_double_precision :
  Binary64.normalizeGravity 0%float 9.81%float = (0%float, 1%float) /\
  Binary64.normalizeGravity 0%float 24.79%float
  = (0%float, 2.5270132517838939%float) /\
  Binary64.normalizeGravity PrimFloat.nan PrimFloat.infinity = (0%float, 1%float).
Proof. repeat split; vm_compute; reflexivity. Qed.

(** ** Wheel zoom *)

Lemma Qgtb_spec (a b : Q) : (b < a /\ Qgtb a b = true) \/ (a <= b /\ Qgtb a b = false).
Proof.
  unfold Qgtb. destruct (Qle_bool_cases a b) as [[H ->]|[H ->]]; auto.
Qed.

Lemma Qltb_spec (a b : Q) : (a < b /\ Qltb a b = true) \/ (b <= a /\ Qltb a b = false).
Proof.
  unfold Qltb. destruct (Qle_bool_cases b a) as [[H ->]|[H ->]]; auto.
Qed.

Lemma zoomFactorOf_out (d : Q) : 0 < d -> zoomFactorOf d = 1.1.
Proof.
  intros H. unfold zoomFactorOf. destruct (Qgtb_spec d 0) as [[_ ->]|[H' _]]; [reflexivity|lra].
Qed.

Lemma zoomFactorOf_in (d : Q) : ~ 0 < d -> zoomFactorOf d = 0.9.
Proof.
  intros H. unfold zoomFactorOf. destruct (Qgtb_spec d 0) as [[H' _]|[_ ->]]; [tauto|reflexivity].
Qed.

Lemma widthOf_lookAt (render : Render.t) (c n lo hi : Q) :
  widthOf (lookAt render
             {| Bounds.min := {| Vector.x := c - n / 2; Vector.y := lo |};
                Bounds.max := {| Vector.x := c + n / 2; Vector.y := hi |} |}) == n.
Proof. unfold widthOf, boxWidth. simpl. field. Qed.

(** One wheel event: either the handler returns early and the render is
    untouched, or the new box is the old width times the factor. *)
Lemma handleWheel_cases (d : Q) (render : Render.t) :
  (0 < d -> 4000 < widthOf render -> handleWheel d render = render) /\
  (0 < d -> widthOf render <= 4000 ->
   widthOf (handleWheel d render) == widthOf render * 1.1) /\
  (~ 0 < d -> widthOf render < 100 -> handleWheel d render = render) /\
  (~ 0 < d -> 100 <= widthOf render ->
   widthOf (handleWheel d render) == widthOf render * 0.9).
Proof.
  unfold handleWheel. fold (boxWidth (Render.bounds render)). fold (widthOf render).
  set (w := widthOf render).
  repeat split; intros Hd Hw.
  - rewrite (zoomFactorOf_out d Hd).
    destruct (Qgtb_spec w 4000) as [[_ ->]|[H _]]; [reflexivity|lra].
  - rewrite (zoomFactorOf_out d Hd).
    destruct (Qgtb_spec w 4000) as [[H _]|[_ ->]]; [lra|].
    cbn [andb]. replace (Qltb 1.1 1) with false by reflexivity.
    rewrite andb_false_r. apply widthOf_lookAt.
  - rewrite (zoomFactorOf_in d Hd).
    replace (Qgtb 0.9 1) with false by reflexivity. rewrite andb_false_r.
    destruct (Qltb_spec w 100) as [[_ ->]|[H _]]; [reflexivity|lra].
  - rewrite (zoomFactorOf_in d Hd).
    replace (Qgtb 0.9 1) with false by reflexivity. rewrite andb_false_r.
    destruct (Qltb_spec w 100) as [[H _]|[_ ->]]; [lra|].
    cbn [andb]. apply widthOf_lookAt.
Qed.

Lemma handleWheel_window (d : Q) (render : Render.t) :
  inZoomWindow render -> inZoomWindow (handleWheel d render).
Proof.
  unfold inZoomWindow. intros [Hlo Hhi].
  destruct (handleWheel_cases d render) as (H1 & H2 & H3 & H4).
  destruct (Qlt_le_dec 0 d) as [Hd|Hd].
  - destruct (Qlt_le_dec 4000 (widthOf render)) as [Hw|Hw].
    + rewrite (H1 Hd Hw). split; assumption.
    + rewrite (H2 Hd Hw). split; lra.
  - assert (Hd' : ~ 0 < d) by lra.
    destruct (Qlt_le_dec (widthOf render) 100) as [Hw|Hw].
    + rewrite (H3 Hd' Hw). split; assumption.
    + rewrite (H4 Hd' Hw). split; lra.
Qed.

Lemma wheelTrace_window (deltas : list Q) (render : Render.t) :
  inZoomWindow render -> Forall inZoomWindow (wheelTrace deltas render).
Proof.
  revert render. induction deltas as [|d deltas IH]; intros render H; simpl.
  - constructor.
  - constructor.
    + now apply handleWheel_window.
    + apply IH. now apply handleWheel_window.
Qed.

(** Counterexample to C3 as stated: the box is exactly 4000 wide, within the
    configured bounds 100 and 4000; one zoom-out is not rejected, although
    the width it produces, 4400, exceeds the upper bound. *)
Lemma zoom_out_at_4000_exceeds_bound :
  100 <= widthOf render4000 <= 4000 /\
  handleWheel 1 render4000 <> render4000 /\
  ~ Forall (fun r => 100 <= widthOf r <= 4000) (wheelTrace [1] render4000).
Proof.
  split; [|split].
  - vm_compute. split; discriminate.
  - vm_compute. discriminate.
  - intros H. inversion H as [|r l [_ Hhi] _]; subst.
    vm_compute in Hhi. apply Hhi. reflexivity.
Qed.

(** C3, amended.  The handler tests the width before the zoom, not the width
    the zoom would produce: a zoom-out is rejected (box unchanged) exactly
    when the current width is above 4000, a zoom-in exactly when it is below
    100; any other operation scales the width by its factor.  So from a box
    whose width lies in [[90, 4400]], no sequence of zoom operations
    produces a width outside [[90, 4400]]. *)
Theorem zoom_width_window (render : Render.t) (deltas : list Q) :
  90 <= widthOf render <= 4400 ->
  Forall (fun r => 90 <= widthOf r <= 4400) (wheelTrace deltas render) /\
  (forall d r,
      ((0 < d /\ 4000 < widthOf r) \/ (~ 0 < d /\ widthOf r < 100) ->
       handleWheel d r = r) /\
      (~ ((0 < d /\ 4000 < widthOf r) \/ (~ 0 < d /\ widthOf r < 100)) ->
       widthOf (handleWheel d r) == widthOf r * zoomFactorOf d)).
Proof.
  intros Hw. split.
  - assert (Hin : inZoomWindow render) by (unfold inZoomWindow; lra).
    eapply Forall_impl; [exact (wheelTrace_window deltas render Hin)|].
    unfold inZoomWindow. intros r Hr. simpl in Hr. lra.
  - intros d r. destruct (handleWheel_cases d r) as (H1 & H2 & H3 & H4).
    split.
    + intros [[Hd Hr]|[Hd Hr]]; auto.
    + intros Hn. destruct (Qlt_le_dec 0 d) as [Hd|Hd].
      * rewrite (zoomFactorOf_out d Hd). apply H2; [exact Hd|].
        destruct (Qlt_le_dec 4000 (widthOf r)) as [Hr|Hr]; [|exact Hr].
        exfalso. apply Hn. left. split; assumption.
      * assert (Hd' : ~ 0 < d) by lra.
        rewrite (zoomFactorOf_in d Hd'). apply H4; [exact Hd'|].
        destruct (Qlt_le_dec (widthOf r) 100) as [Hr|Hr]; [|exact Hr].
        exfalso. apply Hn. right. split; assumption.
Qed.

Lemma zoom_width_window_witness :
  Forall (fun r => 90 <= widthOf r <= 4400) (wheelTrace [1; 1; -1] render4000).
Proof.
  apply (zoom_width_window render4000 [1; 1; -1]).
  vm_compute. split; discriminate.
Defined.

(** C10. From the default box of width 1000, every box reached by wheel
    events has its width in [[90, 4400]]: a zoom-out is skipped when the
    width is above 4000, a zoom-in when it is below 100, so a threshold is
    passed by at most one application of the factor. *)
Theorem default_view_zoom_range
    (canvas_width canvas_height : Q) (deltas : list Q) :
  widthOf (initialRender canvas_width canvas_height) == 1000 /\
  Forall (fun r => 90 <= widthOf r <= 4400)
         (wheelTrace deltas (initialRender canvas_width canvas_height)) /\
  (forall d r, 0 < d -> 4000 < widthOf r -> handleWheel d r = r) /\
  (forall d r, ~ 0 < d -> widthOf r < 100 -> handleWheel d r = r) /\
  (forall d r, widthOf r <= 4000 -> widthOf (handleWheel d r) <= 4000 * 1.1) /\
  (forall d r, 100 <= widthOf r -> 100 * 0.9 <= widthOf (handleWheel d r)).
Proof.
  assert (H0 : widthOf (initialRender canvas_width canvas_height) == 1000)
    by (vm_compute; reflexivity).
  split; [exact H0|]. split; [|repeat split].
  - assert (Hin : inZoomWindow (initialRender canvas_width canvas_height))
      by (unfold inZoomWindow; rewrite H0; lra).
    eapply Forall_impl; [exact (wheelTrace_window deltas _ Hin)|].
    unfold inZoomWindow. intros r Hr. simpl in Hr. lra.
  - intros d r. apply (handleWheel_cases d r).
  - intros d r. apply (handleWheel_cases d r).
  - intros d r Hr. destruct (handleWheel_cases d r) as (H1 & H2 & H3 & H4).
    destruct (Qlt_le_dec 0 d) as [Hd|Hd].
    + rewrite (H2 Hd Hr). lra.
    + assert (Hd' : ~ 0 < d) by lra.
      destruct (Qlt_le_dec (widthOf r) 100) as [Hw|Hw].
      * rewrite (H3 Hd' Hw). lra.
      * rewrite (H4 Hd' Hw). lra.
  - intros d r Hr. destruct (handleWheel_cases d r) as (H1 & H2 & H3 & H4).
    destruct (Qlt_le_dec 0 d) as [Hd|Hd].
    + destruct (Qlt_le_dec 4000 (widthOf r)) as [Hw|Hw].
      * rewrite (H1 Hd Hw). lra.
      * rewrite (H2 Hd Hw). lra.
    + assert (Hd' : ~ 0 < d) by lra. rewrite (H4 Hd' Hr). lra.
Qed.

Lemma default_view_zoom_range_witness :
  handleWheel 1 (handleWheel 1 render4000) = handleWheel 1 render4000.
Proof.
  destruct (default_view_zoom_range 800 600 []) as (_ & _ & H & _).
  apply H; vm_compute; reflexivity.
Defined.

(** ** Collision flash *)

Example contact_starts_flash :
  collisionStart true [Some {| Point.x := Fin 1; Point.y := Fin 2 |}] None
  = Some {| Flash.x := Fin 1; Flash.y := Fin 2; Flash.frame := 0 |}.
Proof. reflexivity. Qed.

Example flash_expires_after_ten_frames :
  renderTicks 10 (Some {| Flash.x := Fin 1; Flash.y := Fin 2; Flash.frame := 0 |})
  = Some {| Flash.x := Fin 1; Flash.y := Fin 2; Flash.frame := 10 |} /\
  afterRender (Some {| Flash.x := Fin 1; Flash.y := Fin 2; Flash.frame := 10 |})
  = (None, Some {| Flash.x := Fin 1; Flash.y := Fin 2; Flash.frame := 10 |}).
Proof. split; reflexivity. Qed.

Lemma afterRender_nonfinite (x y : number) (frame : nat) :
  isFinite x && isFinite y = false ->
  afterRender (Some {| Flash.x := x; Flash.y := y; Flash.frame := frame |})
  = (None, Some {| Flash.x := x; Flash.y := y; Flash.frame := frame |}).
Proof.
  intros H. unfold afterRender. cbn [Flash.x Flash.y Flash.frame].
  rewrite <- andb_assoc, H, andb_false_r. reflexivity.
Qed.

Lemma renderTicks_nonfinite (n : nat) (x y : number) (frame : nat) :
  isFinite x && isFinite y = false ->
  renderTicks n (Some {| Flash.x := x; Flash.y := y; Flash.frame := frame |})
  = Some {| Flash.x := x; Flash.y := y; Flash.frame := frame |}.
Proof.
  intros H. induction n as [|n IH]; [reflexivity|].
  cbn [renderTicks]. rewrite (afterRender_nonfinite x y frame H). exact IH.
Qed.

(** Counterexample to C9 as stated: with effects enabled, a contact whose
    point has a [NaN] coordinate replaces an active effect at a finite point;
    from the idle slot it is stored as well. *)
Lemma nonfinite_contact_overwrites_flash :
  finitePoint nanPoint = false /\
  collisionStart true [Some nanPoint] (Some activeFlash) <> Some activeFlash /\
  collisionStart true [Some nanPoint] (Some activeFlash)
  = Some {| Flash.x := NaN; Flash.y := Fin 5; Flash.frame := 0 |} /\
  collisionStart true [Some nanPoint] None <> None.
Proof.
  repeat split; try reflexivity; vm_compute; discriminate.
Qed.

(** C9, amended.  The listener does not look at the coordinates.  With
    effects disabled, a contact at a non-finite point leaves the slot as it
    is.  With effects enabled the point of the last pair is stored at frame
    0, replacing whatever was there; the guard sits in the render step, which
    from then on draws nothing and leaves the slot unchanged, so the point is
    never drawn and never ages. *)
Theorem nonfinite_contact_stored_never_drawn
    (pairs : list (option Point.t)) (p : Point.t) (flash : option Flash.t) :
  finitePoint p = false ->
  collisionStart false (pairs ++ [Some p]) flash = flash /\
  collisionStart true (pairs ++ [Some p]) flash
  = Some {| Flash.x := Point.x p; Flash.y := Point.y p; Flash.frame := 0 |} /\
  forall n,
    afterRender (renderTicks n (collisionStart true (pairs ++ [Some p]) flash))
    = (None, collisionStart true (pairs ++ [Some p]) flash).
Proof.
  intros Hp. unfold finitePoint in Hp.
  assert (Hstored : collisionStart true (pairs ++ [Some p]) flash
                    = Some {| Flash.x := Point.x p; Flash.y := Point.y p;
                              Flash.frame := 0 |}).
  { unfold collisionStart. cbn [negb]. now rewrite fold_left_app. }
  split; [reflexivity|]. split; [exact Hstored|].
  intros n. rewrite Hstored.
  rewrite (renderTicks_nonfinite n _ _ 0 Hp).
  apply afterRender_nonfinite. exact Hp.
Qed.

Lemma nonfinite_contact_stored_never_drawn_witness :
  afterRender (renderTicks 7 (collisionStart true ([] ++ [Some nanPoint])
                                             (Some activeFlash)))
  = (None, collisionStart true ([] ++ [Some nanPoint]) (Some activeFlash)).
Proof.
  apply (nonfinite_contact_stored_never_drawn [] nanPoint (Some activeFlash)).
  reflexivity.
Defined.

(** ** Identity remapping *)













Lemma id_in_bodyIds (b : BodyDef.t) (bs : list BodyDef.t) :
  b ∈ bs -> BodyDef.id b ∈ bodyIds bs.
Proof. intros H. unfold bodyIds. now apply list_elem_of_fmap_2. Qed.


(** The names inherited from [Object.prototype] are a second exception.  A
    constraint on [constructor], which is no new body, does not keep its
    [bodyAId]: the field becomes the inherited member.  A new body with the
    model id [__proto__] is minted as [__proto___1234], yet a constraint
    naming it gets the prototype object instead of the minted id.  A new
    body called [toString] shadows the inherited member and is remapped as
    usual. *)
Example prototype_names_are_rewritten :
  let out :=
    postProcess "1234"
      (command (Some [ball "__proto__"; ball "toString"]) None
               (Some [link "constructor" (Some "__proto__"%string);
                      link "toString" (Some "valueOf"%string)]) None) in
  bodyIds (orEmpty (VoiceCommandResponse.newBodies out))
  = ["__proto___1234"; "toString_1234"]%string /\
  (ConstraintDef.bodyAId <$> orEmpty (VoiceCommandResponse.newConstraints out))
  = [Inherited "constructor"; Str "toString_1234"] /\
  (ConstraintDef.bodyBId <$> orEmpty (VoiceCommandResponse.newConstraints out))
  = [Some (Inherited "__proto__"); Some (Inherited "valueOf")].
Proof. vm_compute. repeat split. Qed.



(** ** Update pass *)

Lemma findIndex_Some {A : Type} (p : A -> bool) (l : list A) (i : nat) :
  findIndex p l = Some i -> exists a, l !! i = Some a /\ p a = true.
Proof.
  revert i. induction l as [|a l IH]; intros i; simpl; [discriminate|].
  destruct (p a) eqn:Hp.
  - intros [= <-]. exists a. split; [reflexivity|exact Hp].
  - destruct (findIndex p l) as [j|]; simpl; [|discriminate].
    intros [= <-]. destruct (IH j eq_refl) as (b & Hb & Hpb).
    exists b. split; assumption.
Qed.

Lemma findIndex_None {A : Type} (p : A -> bool) (l : list A) :
  findIndex p l = None -> forall a, a ∈ l -> p a = false.
Proof.
  induction l as [|b l IH]; simpl; intros H a Ha.
  - inversion Ha.
  - destruct (p b) eqn:Hp; [discriminate|].
    destruct (findIndex p l); [discriminate|].
    apply elem_of_cons in Ha as [->|Ha]; [exact Hp|now apply IH].
Qed.

Lemma hasId_true (k : string) (b : BodyDef.t) : hasId k b = true <-> BodyDef.id b = k.
Proof. unfold hasId. apply String.eqb_eq. Qed.

Lemma findIndex_absent (k : string) (bs : list BodyDef.t) :
  k ∉ bodyIds bs -> findIndex (hasId k) bs = None.
Proof.
  intros H. destruct (findIndex (hasId k) bs) as [i|] eqn:E; [|reflexivity].
  destruct (findIndex_Some _ _ _ E) as (b & Hb & Hk).
  exfalso. apply H. apply hasId_true in Hk as <-.
  apply id_in_bodyIds. eapply list_elem_of_lookup_2. exact Hb.
Qed.

Lemma findIndex_present (k : string) (bs : list BodyDef.t) :
  k ∈ bodyIds bs -> exists i, findIndex (hasId k) bs = Some i.
Proof.
  intros H. destruct (findIndex (hasId k) bs) as [i|] eqn:E; [eauto|].
  exfalso. unfold bodyIds in H. apply list_elem_of_fmap in H as (b & -> & Hb).
  pose proof (findIndex_None _ _ E b Hb) as Hf.
  assert (Ht : hasId (BodyDef.id b) b = true) by now apply hasId_true.
  congruence.
Qed.

(** Only the ids decide which index is found. *)
Lemma findIndex_ids (k : string) (bs bs' : list BodyDef.t) :
  bodyIds bs = bodyIds bs' -> findIndex (hasId k) bs = findIndex (hasId k) bs'.
Proof.
  revert bs'. induction bs as [|b bs IH]; intros [|b' bs']; simpl;
    try discriminate; [reflexivity|].
  intros [= Hid Hrest]. unfold hasId at 1 3. rewrite Hid.
  now rewrite (IH bs' Hrest).
Qed.

Lemma processUpdate_found (bs : list BodyDef.t) (u : BodyUpdate.t) (i : nat)
    (old : BodyDef.t) :
  findIndex (hasId (BodyUpdate.id u)) bs = Some i -> bs !! i = Some old ->
  processUpdate bs u = <[i := spread old u]> bs.
Proof. intros Hi Hold. unfold processUpdate. now rewrite Hi, Hold. Qed.

Lemma processUpdate_absent (bs : list BodyDef.t) (u : BodyUpdate.t) :
  BodyUpdate.id u ∉ bodyIds bs -> processUpdate bs u = bs.
Proof. intros H. unfold processUpdate. now rewrite findIndex_absent. Qed.

Lemma bodyIds_processUpdate (bs : list BodyDef.t) (u : BodyUpdate.t) :
  bodyIds (processUpdate bs u) = bodyIds bs.
Proof.
  unfold processUpdate.
  destruct (findIndex _ bs) as [i|] eqn:E; [|reflexivity].
  destruct (findIndex_Some _ _ _ E) as (old & Hold & Hid).
  rewrite Hold. unfold bodyIds. rewrite list_fmap_insert.
  apply list_insert_id. rewrite list_lookup_fmap, Hold. simpl.
  apply hasId_true in Hid. now rewrite Hid.
Qed.

Lemma bodyIds_updatePass (us : list BodyUpdate.t) (bs : list BodyDef.t) :
  bodyIds (updatePass us bs) = bodyIds bs.
Proof.
  unfold updatePass. revert bs. induction us as [|u us IH]; intros bs; simpl.
  - reflexivity.
  - rewrite IH. apply bodyIds_processUpdate.
Qed.

Lemma length_processUpdate (bs : list BodyDef.t) (u : BodyUpdate.t) :
  length (processUpdate bs u) = length bs.
Proof.
  rewrite <- (length_fmap BodyDef.id (processUpdate bs u)).
  rewrite <- (length_fmap BodyDef.id bs).
  fold (bodyIds (processUpdate bs u)) (bodyIds bs).
  now rewrite bodyIds_processUpdate.
Qed.

(** A fragment with another id leaves the body at [i] alone. *)
Lemma processUpdate_other (bs : list BodyDef.t) (v : BodyUpdate.t) (i : nat)
    (b : BodyDef.t) :
  bs !! i = Some b -> BodyDef.id b <> BodyUpdate.id v ->
  processUpdate bs v !! i = Some b.
Proof.
  intros Hb Hne. unfold processUpdate.
  destruct (findIndex _ bs) as [j|] eqn:E; [|exact Hb].
  destruct (findIndex_Some _ _ _ E) as (old & Hold & Hid).
  rewrite Hold. rewrite list_lookup_insert_ne; [exact Hb|].
  intros ->. apply hasId_true in Hid. congruence.
Qed.

Lemma updatePass_other (vs : list BodyUpdate.t) (bs : list BodyDef.t) (i : nat)
    (b : BodyDef.t) :
  Forall (fun v => BodyUpdate.id v <> BodyDef.id b) vs ->
  bs !! i = Some b -> updatePass vs bs !! i = Some b.
Proof.
  unfold updatePass. revert bs.
  induction vs as [|v vs IH]; intros bs Hvs Hb; simpl; [exact Hb|].
  inversion Hvs as [|? ? Hv Hvs']; subst.
  apply IH; [exact Hvs'|]. apply processUpdate_other; [exact Hb|congruence].
Qed.

Lemma spread_overwrittenBy (old : BodyDef.t) (u : BodyUpdate.t) :
  BodyDef.id old = BodyUpdate.id u -> overwrittenBy old u (spread old u).
Proof. intros H. unfold overwrittenBy, spread. simpl. rewrite H. tauto. Qed.

Lemma updatePass_app (us vs : list BodyUpdate.t) (bs : list BodyDef.t) :
  updatePass (us ++ vs) bs = updatePass vs (updatePass us bs).
Proof. unfold updatePass. apply fold_left_app. Qed.

(** A fragment whose id is not in the list can be left out of the pass. *)
Lemma updatePass_drop (before after : list BodyUpdate.t) (u : BodyUpdate.t)
    (bs : list BodyDef.t) :
  BodyUpdate.id u ∉ bodyIds bs ->
  updatePass (before ++ u :: after) bs = updatePass (before ++ after) bs.
Proof.
  intros H. rewrite !updatePass_app.
  assert (Hpre : BodyUpdate.id u ∉ bodyIds (updatePass before bs))
    by now rewrite bodyIds_updatePass.
  remember (updatePass before bs) as pre eqn:Epre. clear Epre.
  unfold updatePass. cbn [fold_left].
  now rewrite processUpdate_absent.
Qed.

(** ** The merge as a whole *)

Lemma applyAdditions_unfold (response : VoiceCommandResponse.t)
    (st : option SceneConfig.t) :
  applyAdditions response st
  = Some {| SceneConfig.bodies :=
              updatePass (orEmpty (VoiceCommandResponse.updatedBodies response))
                         (bodiesOf st)
              ++ orEmpty (VoiceCommandResponse.newBodies response);
            SceneConfig.constraints :=
              constraintsOf st
              ++ orEmpty (VoiceCommandResponse.newConstraints response) |}.
Proof. destruct st; reflexivity. Qed.

Lemma nonEmpty_false {A : Type} (l : option (list A)) :
  nonEmpty l = false -> orEmpty l = [].
Proof. destruct l as [[|a l]|]; simpl; intros H; [reflexivity|discriminate|reflexivity]. Qed.

Lemma nonEmpty_middle {A : Type} (l1 l2 : list A) (a : A) :
  nonEmpty (Some (l1 ++ a :: l2)) = true.
Proof. destruct l1; reflexivity. Qed.

(** With nothing to add or update, the first updater would return the scene
    it was given. *)
Lemma applyAdditions_nothing (response : VoiceCommandResponse.t) (s : SceneConfig.t) :
  nonEmpty (VoiceCommandResponse.newBodies response) = false ->
  nonEmpty (VoiceCommandResponse.newConstraints response) = false ->
  nonEmpty (VoiceCommandResponse.updatedBodies response) = false ->
  applyAdditions response (Some s) = Some s.
Proof.
  intros Hb Hc Hu. rewrite applyAdditions_unfold.
  rewrite (nonEmpty_false _ Hb), (nonEmpty_false _ Hc), (nonEmpty_false _ Hu).
  unfold updatePass. simpl. rewrite !app_nil_r. now destruct s.
Qed.

(** The bodies of the merged scene when the update/add block runs. *)
Lemma applyVoiceCommand_bodies (response : VoiceCommandResponse.t)
    (st : option SceneConfig.t) (b : BodyDef.t) :
  nonEmpty (VoiceCommandResponse.updatedBodies response) = true ->
  b ∈ updatePass (orEmpty (VoiceCommandResponse.updatedBodies response)) (bodiesOf st) ->
  includes (orEmpty (VoiceCommandResponse.removeBodyIds response)) (BodyDef.id b) = false ->
  b ∈ bodiesOf (applyVoiceCommand response st).
Proof.
  intros Hu Hb Hrm. unfold applyVoiceCommand. rewrite Hu, !orb_true_r.
  rewrite applyAdditions_unfold.
  destruct (nonEmpty (VoiceCommandResponse.removeBodyIds response)); simpl.
  - apply list_elem_of_In, filter_In. split.
    + apply list_elem_of_In, elem_of_app. now left.
    + now rewrite Hrm.
  - apply elem_of_app. now left.
Qed.

(** Counterexample to C7 as stated, on the merged scene: the first of two
    fragments for body ["a"] sets its friction to 0.5, the second to 0.9, and
    the merged scene holds 0.9; and a fragment for a body that the same
    command removes leaves no such body in the merged scene. *)
Lemma later_fragment_or_removal_wins :
  let scene := {| SceneConfig.bodies := [ball "a"]; SceneConfig.constraints := [] |} in
  let u := frictionUpdate "a" 0.5 in
  let twice := command None (Some [u; frictionUpdate "a" 0.9]) None None in
  let removed := command None (Some [u]) None (Some ["a"%string]) in
  ball "a" ∈ SceneConfig.bodies scene /\
  BodyDef.id (ball "a") = BodyUpdate.id u /\
  (spread (ball "a") u ∉ bodiesOf (applyVoiceCommand twice (Some scene))) /\
  bodiesOf (applyVoiceCommand removed (Some scene)) = [].
Proof.
  split; [apply list_elem_of_singleton; reflexivity|].
  split; [reflexivity|]. split; [|reflexivity].
  intros Hin.
  change (spread (ball "a") (frictionUpdate "a" 0.5)
          ∈ [spread (spread (ball "a") (frictionUpdate "a" 0.5))
                    (frictionUpdate "a" 0.9)]) in Hin.
  apply list_elem_of_singleton in Hin.
  apply (f_equal BodyDef.friction) in Hin. vm_compute in Hin. discriminate.
Qed.

(** C7, amended.  The fragments of a command are applied in list order, each
    to the body list the earlier ones left.  If a body with the fragment's id
    exists in the scene, the first such body is replaced by itself with
    exactly the fragment's defined fields overwritten and every other field
    as it was, and no other body changes; the merged scene contains that body
    unless a later fragment of the command has the same id or the id is in
    the removal list.  If no body has that id, the fragment changes nothing:
    the merge gives the same scene as without it, and no body is added. *)
Theorem update_fragment_frame
    (response : VoiceCommandResponse.t) (scene : SceneConfig.t)
    (before after : list BodyUpdate.t) (u : BodyUpdate.t) :
  VoiceCommandResponse.updatedBodies response = Some (before ++ u :: after) ->
  (BodyUpdate.id u ∈ bodyIds (SceneConfig.bodies scene) <->
   exists i, findIndex (hasId (BodyUpdate.id u)) (SceneConfig.bodies scene) = Some i) /\
  (forall i,
      findIndex (hasId (BodyUpdate.id u)) (SceneConfig.bodies scene) = Some i ->
      exists old,
        updatePass before (SceneConfig.bodies scene) !! i = Some old /\
        BodyDef.id old = BodyUpdate.id u /\
        overwrittenBy old u (spread old u) /\
        updatePass (before ++ [u]) (SceneConfig.bodies scene)
        = <[i := spread old u]> (updatePass before (SceneConfig.bodies scene)) /\
        (Forall (fun v => BodyUpdate.id v <> BodyUpdate.id u) before ->
         SceneConfig.bodies scene !! i = Some old) /\
        (Forall (fun v => BodyUpdate.id v <> BodyUpdate.id u) after ->
         includes (orEmpty (VoiceCommandResponse.removeBodyIds response))
                  (BodyUpdate.id u) = false ->
         spread old u ∈ bodiesOf (applyVoiceCommand response (Some scene)))) /\
  (BodyUpdate.id u ∉ bodyIds (SceneConfig.bodies scene) ->
   processUpdate (updatePass before (SceneConfig.bodies scene)) u
   = updatePass before (SceneConfig.bodies scene) /\
   applyVoiceCommand response (Some scene)
   = applyVoiceCommand (withUpdatedBodies response (Some (before ++ after)))
                       (Some scene)).
Proof.
  intros Hupd. set (bodies := SceneConfig.bodies scene).
  set (pre := updatePass before bodies). split; [|split].
  - split; [apply findIndex_present|].
    intros [i Hi]. destruct (findIndex_Some _ _ _ Hi) as (b & Hb & Hid).
    apply hasId_true in Hid as <-. apply id_in_bodyIds.
    eapply list_elem_of_lookup_2. exact Hb.
  - intros i Hi.
    assert (Hpre : findIndex (hasId (BodyUpdate.id u)) pre = Some i).
    { rewrite <- Hi. apply findIndex_ids. apply bodyIds_updatePass. }
    destruct (findIndex_Some _ _ _ Hpre) as (old & Hold & Hid).
    apply hasId_true in Hid.
    assert (Hstep : updatePass (before ++ [u]) bodies = <[i := spread old u]> pre).
    { rewrite updatePass_app. fold pre. unfold updatePass. cbn [fold_left].
      now apply processUpdate_found. }
    exists old. split; [exact Hold|]. split; [exact Hid|].
    split; [now apply spread_overwrittenBy|]. split; [exact Hstep|]. split.
    + intros Hbefore.
      destruct (findIndex_Some _ _ _ Hi) as (b & Hb & Hbid).
      apply hasId_true in Hbid.
      assert (Hsame : pre !! i = Some b).
      { apply updatePass_other; [|exact Hb].
        eapply Forall_impl; [exact Hbefore|]. intros v Hv. simpl. congruence. }
      congruence.
    + intros Hafter Hrm.
      apply applyVoiceCommand_bodies.
      * rewrite Hupd. apply nonEmpty_middle.
      * rewrite Hupd. cbn [orEmpty bodiesOf]. fold bodies.
        replace (before ++ u :: after) with ((before ++ [u]) ++ after)
          by now rewrite <- app_assoc.
        rewrite updatePass_app, Hstep.
        eapply list_elem_of_lookup_2 with (i := i).
        apply updatePass_other.
        -- eapply Forall_impl; [exact Hafter|]. intros v Hv. simpl. exact Hv.
        -- apply list_lookup_insert_eq. eapply lookup_lt_Some. exact Hold.
      * exact Hrm.
  - intros Habsent. split.
    + apply processUpdate_absent. unfold pre. now rewrite bodyIds_updatePass.
    + unfold applyVoiceCommand.
      cbn [withUpdatedBodies VoiceCommandResponse.newBodies
           VoiceCommandResponse.newConstraints VoiceCommandResponse.updatedBodies
           VoiceCommandResponse.removeBodyIds].
      rewrite Hupd, nonEmpty_middle, !orb_true_r.
      assert (Hadd : applyAdditions response (Some scene)
                     = applyAdditions
                         (withUpdatedBodies response (Some (before ++ after)))
                         (Some scene)).
      { rewrite !applyAdditions_unfold.
        cbn [withUpdatedBodies VoiceCommandResponse.newBodies
             VoiceCommandResponse.newConstraints VoiceCommandResponse.updatedBodies
             orEmpty bodiesOf].
        rewrite Hupd. cbn [orEmpty]. fold bodies.
        now rewrite (updatePass_drop before after u bodies Habsent). }
      assert (Hrm : forall st,
                 applyRemovals (withUpdatedBodies response (Some (before ++ after))) st
                 = applyRemovals response st) by (intros [s|]; reflexivity).
      destruct (nonEmpty (VoiceCommandResponse.newBodies response)
                || nonEmpty (VoiceCommandResponse.newConstraints response)
                || nonEmpty (Some (before ++ after))) eqn:Hguard;
        rewrite ?Hrm, Hadd; [reflexivity|].
      apply orb_false_elim in Hguard as [Hguard Hu].
      apply orb_false_elim in Hguard as [Hb Hc].
      rewrite (applyAdditions_nothing
                 (withUpdatedBodies response (Some (before ++ after))) scene);
        auto.
Qed.

Lemma update_fragment_frame_witness :
  spread (ball "a") (frictionUpdate "a" 0.9)
  ∈ bodiesOf
      (applyVoiceCommand (command None (Some [frictionUpdate "a" 0.9]) None None)
         (Some {| SceneConfig.bodies := [ball "floor"; ball "a"];
                  SceneConfig.constraints := [] |})).
Proof.
  destruct (update_fragment_frame
              (command None (Some [frictionUpdate "a" 0.9]) None None)
              {| SceneConfig.bodies := [ball "floor"; ball "a"];
                 SceneConfig.constraints := [] |}
              [] [] (frictionUpdate "a" 0.9) eq_refl) as (_ & Hfound & _).
  destruct (Hfound 1%nat eq_refl) as (old & Hold & _ & _ & _ & _ & Hin).
  vm_compute in Hold. injection Hold as <-.
  apply Hin; [constructor | reflexivity].
Defined.

(** The examples of section 8 of the spec. *)

Example merge_nothing (st : option SceneConfig.t) :
  applyVoiceCommand (command None None None None) st = st /\
  applyVoiceCommand (command (Some []) (Some []) (Some []) (Some [])) st = st.
Proof. split; reflexivity. Qed.

Example remove_body_and_its_constraints :
  applyVoiceCommand (command None None None (Some ["B"%string]))
    (Some {| SceneConfig.bodies := [ball "A"; ball "B"];
             SceneConfig.constraints := [link "A" (Some "B"%string)] |})
  = Some {| SceneConfig.bodies := [ball "A"]; SceneConfig.constraints := [] |}.
Proof. reflexivity. Qed.

Example add_box_to_empty_scene :
  applyVoiceCommand
    (postProcess "1234"
       (command
          (Some [{| BodyDef.id := "box"; BodyDef.type := "rectangle";
                    BodyDef.x := Fin 400; BodyDef.y := Fin 200;
                    BodyDef.width := None; BodyDef.height := None;
                    BodyDef.radius := None; BodyDef.angle := None;
                    BodyDef.isStatic := false; BodyDef.color := None;
                    BodyDef.friction := None |}])
          None None None))
    (Some emptyScene)
  = Some {| SceneConfig.bodies :=
              [{| BodyDef.id := "box_1234"; BodyDef.type := "rectangle";
                  BodyDef.x := Fin 400; BodyDef.y := Fin 200;
                  BodyDef.width := Some (Fin 100); BodyDef.height := Some (Fin 20);
                  BodyDef.radius := None; BodyDef.angle := None;
                  BodyDef.isStatic := false; BodyDef.color := None;
                  BodyDef.friction := Some (Fin 0.1) |}];
            SceneConfig.constraints := [] |}.
Proof. reflexivity. Qed.

(** ** Scene invariants under the merge *)

Lemma includes_false (ids : list string) (k : string) :
  includes ids k = false <-> k ∉ ids.
Proof.
  unfold includes. split.
  - intros H Hin. apply list_elem_of_In in Hin.
    assert (Ht : existsb (String.eqb k) ids = true).
    { apply existsb_exists. exists k. split; [exact Hin|apply String.eqb_refl]. }
    congruence.
  - intros H. destruct (existsb (String.eqb k) ids) eqn:E; [|reflexivity].
    apply existsb_exists in E as (x & Hx & Hk). apply String.eqb_eq in Hk as <-.
    exfalso. apply H. now apply list_elem_of_In.
Qed.

Lemma bodyIds_app (l1 l2 : list BodyDef.t) :
  bodyIds (l1 ++ l2) = bodyIds l1 ++ bodyIds l2.
Proof. unfold bodyIds. apply fmap_app. Qed.

Lemma bodyIds_filter_elem (f : BodyDef.t -> bool) (bs : list BodyDef.t) (k : string) :
  k ∈ bodyIds (List.filter f bs) <->
  exists b, b ∈ bs /\ f b = true /\ BodyDef.id b = k.
Proof.
  unfold bodyIds. rewrite list_elem_of_fmap. split.
  - intros (b & -> & Hb). apply list_elem_of_In, filter_In in Hb as [Hb Hf].
    exists b. split; [now apply list_elem_of_In|auto].
  - intros (b & Hb & Hf & <-). exists b. split; [reflexivity|].
    apply list_elem_of_In, filter_In. split; [now apply list_elem_of_In|exact Hf].
Qed.

Lemma NoDup_bodyIds_filter (f : BodyDef.t -> bool) (bs : list BodyDef.t) :
  NoDup (bodyIds bs) -> NoDup (bodyIds (List.filter f bs)).
Proof.
  induction bs as [|b bs IH]; simpl; intros H; [constructor|].
  apply NoDup_cons in H as [Hb Hbs].
  destruct (f b); [|now apply IH].
  change (NoDup (BodyDef.id b :: bodyIds (List.filter f bs))).
  apply NoDup_cons. split; [|now apply IH].
  intros Hin. apply bodyIds_filter_elem in Hin as (b' & Hb' & _ & Hid).
  apply Hb. rewrite <- Hid. now apply id_in_bodyIds.
Qed.

(** An id value is among string ids exactly when it is one of them as a
    string. *)
Lemma elem_of_Str (r : idValue) (ids : list string) :
  r ∈ Str <$> ids <-> exists k, r = Str k /\ k ∈ ids.
Proof.
  rewrite list_elem_of_fmap. split; intros (k & H1 & H2); exists k; auto.
Qed.

Lemma Str_elem_of (k : string) (ids : list string) :
  Str k ∈ Str <$> ids <-> k ∈ ids.
Proof.
  rewrite elem_of_Str. split.
  - intros (k' & [= <-] & H). exact H.
  - intros H. exists k. auto.
Qed.

Lemma includesId_false (ids : list string) (r : idValue) :
  includesId ids r = false <-> r ∉ Str <$> ids.
Proof.
  destruct r as [k|name]; cbn [includesId].
  - rewrite includes_false, Str_elem_of. reflexivity.
  - split; [|reflexivity]. intros _ H. apply elem_of_Str in H as (k & [=] & _).
Qed.

Lemma getBody_Some {bodiesMap : gmap string MatterBody.t} {r : idValue}
    {body : MatterBody.t} :
  getBody bodiesMap r = Some body -> exists k, r = Str k /\ bodiesMap !! k = Some body.
Proof. destruct r as [k|name]; [|discriminate]. intros H. exists k. auto. Qed.

(** A surviving constraint refers to no removed id. *)
Lemma survives_references (ids : list string) (c : ConstraintDef.t) :
  survives ids c = true -> Forall (fun r => r ∉ Str <$> ids) (references c).
Proof.
  unfold survives, references. intros H.
  apply andb_true_iff in H as [Ha Hb].
  apply negb_true_iff, includesId_false in Ha.
  constructor; [exact Ha|].
  destruct (ConstraintDef.bodyBId c) as [b|]; [|constructor].
  destruct (truthyId b); [|constructor].
  simpl in Hb. apply negb_true_iff, includesId_false in Hb.
  now constructor.
Qed.

(** The removal pass keeps a well-formed scene well-formed. *)
Lemma applyRemovals_wellFormed (response : VoiceCommandResponse.t)
    (st : option SceneConfig.t) :
  wellFormedState st -> wellFormedState (applyRemovals response st).
Proof.
  destruct st as [s|]; [|intros _; exact I].
  intros [Hu Hd]. unfold applyRemovals. cbn [wellFormedState].
  set (ids := orEmpty (VoiceCommandResponse.removeBodyIds response)).
  split.
  - unfold uniqueIds. cbn [SceneConfig.bodies]. now apply NoDup_bodyIds_filter.
  - unfold noDangling in *. cbn [SceneConfig.bodies SceneConfig.constraints].
    apply Forall_forall. intros c Hc.
    apply list_elem_of_In, filter_In in Hc as [Hc Hs].
    apply list_elem_of_In in Hc.
    pose proof (proj1 (Forall_forall _ _) Hd c Hc) as Hrefs.
    pose proof (survives_references ids c Hs) as Hkeep.
    apply Forall_forall. intros r Hr.
    pose proof (proj1 (Forall_forall _ _) Hrefs r Hr) as Hin.
    pose proof (proj1 (Forall_forall _ _) Hkeep r Hr) as Hnot.
    unfold bodyRefs in *. apply elem_of_Str in Hin as (k & -> & Hin).
    apply Str_elem_of. rewrite Str_elem_of in Hnot.
    unfold bodyIds in Hin. apply list_elem_of_fmap in Hin as (b & -> & Hb).
    apply bodyIds_filter_elem. exists b. split; [exact Hb|].
    split; [|reflexivity]. apply negb_true_iff, includes_false. exact Hnot.
Qed.

Lemma wellFormedState_parts (st : option SceneConfig.t) :
  wellFormedState st <->
  NoDup (bodyIds (bodiesOf st)) /\ Forall (resolves (bodiesOf st)) (constraintsOf st).
Proof.
  destruct st as [s|]; simpl.
  - reflexivity.
  - split; [intros _; split; constructor | intros _; exact I].
Qed.

(** The update-and-add pass keeps a well-formed scene well-formed when the
    added bodies bring fresh, distinct ids and the added constraints refer to
    bodies of the enlarged scene. *)
Lemma applyAdditions_wellFormed (response : VoiceCommandResponse.t)
    (st : option SceneConfig.t) :
  wellFormedState st ->
  NoDup (bodyIds (bodiesOf st)
         ++ bodyIds (orEmpty (VoiceCommandResponse.newBodies response))) ->
  Forall (resolves (bodiesOf st ++ orEmpty (VoiceCommandResponse.newBodies response)))
         (orEmpty (VoiceCommandResponse.newConstraints response)) ->
  wellFormedState (applyAdditions response st).
Proof.
  intros Hwf Hfresh Hnew. apply wellFormedState_parts in Hwf as [_ Hold].
  rewrite applyAdditions_unfold. cbn [wellFormedState].
  assert (Hids : bodyIds
                   (updatePass (orEmpty (VoiceCommandResponse.updatedBodies response))
                               (bodiesOf st)
                    ++ orEmpty (VoiceCommandResponse.newBodies response))
                 = bodyIds (bodiesOf st)
                   ++ bodyIds (orEmpty (VoiceCommandResponse.newBodies response))).
  { now rewrite bodyIds_app, bodyIds_updatePass. }
  split.
  - unfold uniqueIds. cbn [SceneConfig.bodies]. now rewrite Hids.
  - unfold noDangling. cbn [SceneConfig.bodies SceneConfig.constraints].
    unfold bodyRefs. rewrite Hids. apply Forall_app. split.
    + eapply Forall_impl; [exact Hold|]. intros c Hc. unfold resolves in Hc.
      eapply Forall_impl; [exact Hc|]. intros r Hr. simpl.
      unfold bodyRefs in Hr. rewrite fmap_app. apply elem_of_app. now left.
    + eapply Forall_impl; [exact Hnew|]. intros c Hc.
      unfold resolves, bodyRefs in Hc. now rewrite bodyIds_app in Hc.
Qed.

(** Counterexample to C1 as stated: on the empty scene, a sanitized and
    remapped command whose only content is a constraint on an unknown body
    yields a scene with a dangling reference; one with two new bodies of the
    same model id yields a scene with a duplicate id. *)
Lemma merge_admits_dangling_and_duplicate :
  wellFormedState (Some emptyScene) /\
  ~ wellFormedState
      (applyVoiceCommand
         (postProcess "1234" (command None None (Some [link "ghost" None]) None))
         (Some emptyScene)) /\
  ~ wellFormedState
      (applyVoiceCommand
         (postProcess "1234" (command (Some [ball "a"; ball "a"]) None None None))
         (Some emptyScene)).
Proof.
  split; [|split].
  - apply (bool_decide_eq_true_1 (wellFormedState (Some emptyScene))).
    vm_compute. reflexivity.
  - apply (bool_decide_eq_false_1 (wellFormedState _)). vm_compute. reflexivity.
  - apply (bool_decide_eq_false_1 (wellFormedState _)). vm_compute. reflexivity.
Qed.

(** C1, amended.  The merge has no check of its own on new ids or new
    references.  The update pass and the removal pass keep the Data Model
    invariants; the add pass keeps them when the new bodies' minted ids are
    distinct from each other and from the ids already in the scene, and
    every new constraint refers to bodies of the scene or to new bodies.
    Under these two conditions the merged scene of a scene with unique ids
    and no dangling reference again has unique ids and no dangling
    reference. *)
Theorem merge_keeps_wellFormed (timestamp : string)
    (result : VoiceCommandResponse.t) (st : option SceneConfig.t) :
  wellFormedState st ->
  NoDup (bodyIds (bodiesOf st)
         ++ bodyIds (orEmpty (VoiceCommandResponse.newBodies
                                (postProcess timestamp result)))) ->
  Forall (resolves (bodiesOf st
                    ++ orEmpty (VoiceCommandResponse.newBodies
                                  (postProcess timestamp result))))
         (orEmpty (VoiceCommandResponse.newConstraints
                     (postProcess timestamp result))) ->
  wellFormedState (applyVoiceCommand (postProcess timestamp result) st).
Proof.
  intros Hwf Hfresh Hnew. unfold applyVoiceCommand.
  set (response := postProcess timestamp result) in *.
  assert (Hadd : wellFormedState
                   (if nonEmpty (VoiceCommandResponse.newBodies response)
                       || nonEmpty (VoiceCommandResponse.newConstraints response)
                       || nonEmpty (VoiceCommandResponse.updatedBodies response)
                    then applyAdditions response st else st)).
  { destruct (_ || _ || _); [|exact Hwf]. now apply applyAdditions_wellFormed. }
  destruct (nonEmpty (VoiceCommandResponse.removeBodyIds response)); [|exact Hadd].
  now apply applyRemovals_wellFormed.
Qed.

Lemma merge_keeps_wellFormed_witness :
  wellFormedState
    (applyVoiceCommand
       (postProcess "1234"
          (command (Some [ball "bob"]) (Some [frictionUpdate "pivot" 0.9])
                   (Some [link "bob" (Some "pivot"%string)]) (Some ["old"%string])))
       (Some {| SceneConfig.bodies := [ball "pivot"; ball "old"];
                SceneConfig.constraints := [link "old" (Some "pivot"%string)] |})).
Proof.
  apply (merge_keeps_wellFormed "1234").
  - apply (bool_decide_eq_true_1 (wellFormedState _)). vm_compute. reflexivity.
  - apply (bool_decide_eq_true_1 (NoDup _)). vm_compute. reflexivity.
  - apply (bool_decide_eq_true_1 (Forall _ _)). vm_compute. reflexivity.
Defined.

(** ** Dangling constraints: kept by the merge, skipped by the world *)

Lemma buildBodiesMap_fold (bs : list BodyDef.t) (m : gmap string MatterBody.t)
    (k : string) :
  k ∉ bodyIds bs -> fold_left addBody bs m !! k = m !! k.
Proof.
  revert m. induction bs as [|b bs IH]; intros m Hk; simpl; [reflexivity|].
  change (bodyIds (b :: bs)) with (BodyDef.id b :: bodyIds bs) in Hk.
  apply not_elem_of_cons in Hk as [Hne Hk].
  rewrite (IH _ Hk). unfold addBody.
  destruct (_ || _); [reflexivity|]. now apply lookup_insert_ne.
Qed.

(** The world only knows bodies of the scene. *)
Lemma buildBodiesMap_unknown (bs : list BodyDef.t) (k : string) :
  k ∉ bodyIds bs -> buildBodiesMap bs !! k = None.
Proof.
  intros H. unfold buildBodiesMap. rewrite buildBodiesMap_fold by exact H.
  apply lookup_empty.
Qed.

Lemma createConstraint_unknown (bs : list BodyDef.t) (c : ConstraintDef.t) :
  ConstraintDef.bodyAId c ∉ bodyRefs bs ->
  createConstraint (buildBodiesMap bs) c = None.
Proof.
  intros H. unfold createConstraint.
  destruct (ConstraintDef.bodyAId c) as [k|name]; cbn [getBody]; [|reflexivity].
  unfold bodyRefs in H. rewrite Str_elem_of in H.
  now rewrite buildBodiesMap_unknown.
Qed.

Lemma nonEmpty_elem {A : Type} (l : option (list A)) (a : A) :
  a ∈ orEmpty l -> nonEmpty l = true.
Proof.
  destruct l as [[|b l]|]; simpl; intros H; try reflexivity; inversion H.
Qed.

(** The removal pass only takes bodies away. *)
Lemma applyRemovals_bodyIds (response : VoiceCommandResponse.t)
    (st : option SceneConfig.t) (k : string) :
  k ∈ bodyIds (bodiesOf (applyRemovals response st)) -> k ∈ bodyIds (bodiesOf st).
Proof.
  destruct st as [s|]; simpl; [|auto].
  intros H. apply bodyIds_filter_elem in H as (b & Hb & _ & <-).
  now apply id_in_bodyIds.
Qed.

(** Counterexample to C2 as stated: the new constraint refers to ["ghost"],
    which is no body of the merged scene, and it is in the merged scene's
    constraint list all the same. *)
Lemma dangling_constraint_is_admitted :
  let merged :=
    applyVoiceCommand
      (postProcess "1234" (command None None (Some [link "ghost" None]) None))
      (Some {| SceneConfig.bodies := [ball "a"]; SceneConfig.constraints := [] |}) in
  ("ghost"%string ∉ bodyIds (bodiesOf merged)) /\
  link "ghost" None ∈ constraintsOf merged.
Proof.
  split.
  - apply (bool_decide_eq_false_1 (_ ∈ _)). vm_compute. reflexivity.
  - apply list_elem_of_singleton. reflexivity.
Qed.

(** C2, amended.  The add pass appends every new constraint unchecked.  A new
    constraint whose [bodyAId] is no body of the post-update-and-add body set
    is therefore part of the scene after the add pass, and of the merged
    scene unless the removal pass filters it out; the merge does not fail on
    it.  It is dropped later, when the world is built from the scene: no
    engine constraint is created for it. *)
Theorem dangling_constraint_kept_then_skipped
    (response : VoiceCommandResponse.t) (st : option SceneConfig.t)
    (c : ConstraintDef.t) :
  c ∈ orEmpty (VoiceCommandResponse.newConstraints response) ->
  ConstraintDef.bodyAId c ∉ bodyRefs (bodiesOf (applyAdditions response st)) ->
  c ∈ constraintsOf (applyAdditions response st) /\
  exists merged,
    applyVoiceCommand response st = Some merged /\
    (survives (orEmpty (VoiceCommandResponse.removeBodyIds response)) c = true ->
     c ∈ SceneConfig.constraints merged) /\
    createConstraint (buildBodiesMap (SceneConfig.bodies merged)) c = None.
Proof.
  intros Hc Hdangling.
  assert (Hkept : c ∈ constraintsOf (applyAdditions response st)).
  { rewrite applyAdditions_unfold. cbn [constraintsOf SceneConfig.constraints].
    apply elem_of_app. now right. }
  split; [exact Hkept|].
  unfold applyVoiceCommand.
  rewrite (nonEmpty_elem _ c Hc), orb_true_r. cbn [orb].
  destruct (nonEmpty (VoiceCommandResponse.removeBodyIds response)).
  - destruct (applyAdditions response st) as [s|] eqn:Hs;
      [|rewrite applyAdditions_unfold in Hs; discriminate].
    eexists. split; [reflexivity|]. split.
    + intros Hsurv. cbn [SceneConfig.constraints].
      apply list_elem_of_In, filter_In. split; [|exact Hsurv].
      now apply list_elem_of_In.
    + apply createConstraint_unknown. intros Hin. apply Hdangling.
      unfold bodyRefs in *. apply elem_of_Str in Hin as (k & -> & Hin).
      apply Str_elem_of.
      apply (applyRemovals_bodyIds response (Some s)). exact Hin.
  - destruct (applyAdditions response st) as [s|] eqn:Hs;
      [|rewrite applyAdditions_unfold in Hs; discriminate].
    exists s. split; [reflexivity|]. split.
    + intros _. exact Hkept.
    + now apply createConstraint_unknown.
Qed.

Lemma dangling_constraint_kept_then_skipped_witness :
  link "ghost" None
  ∈ constraintsOf
      (applyAdditions (command None None (Some [link "ghost" None]) None)
         (Some {| SceneConfig.bodies := [ball "a"]; SceneConfig.constraints := [] |})) /\
  exists merged,
    applyVoiceCommand (command None None (Some [link "ghost" None]) None)
      (Some {| SceneConfig.bodies := [ball "a"]; SceneConfig.constraints := [] |})
    = Some merged /\
    (survives [] (link "ghost" None) = true ->
     link "ghost" None ∈ SceneConfig.constraints merged) /\
    createConstraint (buildBodiesMap (SceneConfig.bodies merged)) (link "ghost" None)
    = None.
Proof.
  apply (dangling_constraint_kept_then_skipped
           (command None None (Some [link "ghost" None]) None)
           (Some {| SceneConfig.bodies := [ball "a"]; SceneConfig.constraints := [] |})
           (link "ghost" None)).
  - apply list_elem_of_singleton. reflexivity.
  - apply (bool_decide_eq_false_1 (_ ∈ _)). vm_compute. reflexivity.
Defined.

(** ** Response cleaning *)

Local Open Scope string_scope.

Lemma append_cons (x : ascii) (a b : string) : String x a ++ b = String x (a ++ b).
Proof. reflexivity. Qed.

Lemma append_nil (b : string) : EmptyString ++ b = b.
Proof. reflexivity. Qed.

Lemma append_assoc (a b c : string) : (a ++ b) ++ c = a ++ (b ++ c).
Proof.
  induction a as [|x a IH]; [reflexivity|].
  rewrite !append_cons. now rewrite IH.
Qed.

Lemma length_append (a b : string) :
  String.length (a ++ b) = (String.length a + String.length b)%nat.
Proof.
  induction a as [|x a IH]; [reflexivity|].
  rewrite append_cons. simpl. now rewrite IH.
Qed.

Lemma occurs_append (c : ascii) (a b : string) :
  occurs c (a ++ b) = occurs c a || occurs c b.
Proof.
  induction a as [|x a IH]; [reflexivity|].
  rewrite append_cons. simpl. now rewrite IH, orb_assoc.
Qed.

Lemma indexOf_first (c : ascii) (pre rest : string) :
  occurs c pre = false ->
  indexOf c (pre ++ String c rest) = Some (String.length pre).
Proof.
  induction pre as [|a pre IH]; intros H.
  - rewrite append_nil. simpl. now rewrite Ascii.eqb_refl.
  - rewrite append_cons. simpl in *.
    apply orb_false_elim in H as [Ha Hpre]. rewrite Ha, (IH Hpre). reflexivity.
Qed.

Lemma indexOf_None (c : ascii) (s : string) :
  indexOf c s = None <-> occurs c s = false.
Proof.
  induction s as [|a s IH]; simpl; [tauto|].
  destruct (Ascii.eqb a c); simpl; [split; discriminate|].
  destruct (indexOf c s); simpl.
  - split; [discriminate|]. intros H. apply IH in H. discriminate.
  - split; [intros _; now apply IH | reflexivity].
Qed.

Lemma lastIndexOf_None (c : ascii) (s : string) :
  lastIndexOf c s = None <-> occurs c s = false.
Proof.
  induction s as [|a s IH]; simpl; [tauto|].
  destruct (lastIndexOf c s); simpl.
  - split; [discriminate|]. intros H. apply orb_false_elim in H as [_ H].
    apply IH in H. discriminate.
  - destruct (Ascii.eqb a c); simpl; [split; discriminate|].
    split; [intros _; now apply IH | reflexivity].
Qed.

Lemma lastIndexOf_last (c : ascii) (s post : string) :
  occurs c post = false ->
  lastIndexOf c (s ++ String c post) = Some (String.length s).
Proof.
  intros H. induction s as [|a s IH].
  - rewrite append_nil. simpl.
    rewrite (proj2 (lastIndexOf_None c post) H). now rewrite Ascii.eqb_refl.
  - rewrite append_cons. simpl. now rewrite IH.
Qed.

Lemma substring_skip (pre s : string) (m : nat) :
  String.substring (String.length pre) m (pre ++ s) = String.substring 0 m s.
Proof.
  induction pre as [|a pre IH]; [reflexivity|].
  rewrite append_cons. simpl. exact IH.
Qed.

Lemma substring_take (s post : string) :
  String.substring 0 (String.length s) (s ++ post) = s.
Proof.
  induction s as [|a s IH].
  - rewrite append_nil. simpl. destruct post; reflexivity.
  - rewrite append_cons. simpl. now rewrite IH.
Qed.

(** The characters of a pattern all differ from [c]: a match that starts
    before an occurrence of [c] ends before it. *)
Lemma prefix_stop (pat rest tail : string) (c : ascii) :
  occurs c pat = false ->
  String.prefix pat (rest ++ String c tail) = String.prefix pat rest.
Proof.
  revert rest. induction pat as [|a pat IH]; intros rest H.
  - destruct rest; reflexivity.
  - simpl in H. apply orb_false_elim in H as [Ha Hpat].
    destruct rest as [|b rest]; simpl.
    + destruct (ascii_dec a c) as [->|_]; [|reflexivity].
      rewrite Ascii.eqb_refl in Ha. discriminate.
    + destruct (ascii_dec a b); [now apply IH|reflexivity].
Qed.

Lemma prefix_length (pat s : string) :
  String.prefix pat s = true -> (String.length pat <= String.length s)%nat.
Proof.
  revert s. induction pat as [|a pat IH]; intros s H; simpl; [lia|].
  destruct s as [|b s]; simpl in *; [discriminate|].
  destruct (ascii_dec a b); [|discriminate]. apply IH in H. lia.
Qed.

Lemma removeAllFrom_stop (pat pre tail : string) (c : ascii) (k : nat) :
  occurs c pat = false -> (k <= String.length pre)%nat ->
  removeAllFrom pat k (pre ++ String c tail)
  = removeAllFrom pat k pre ++ removeAllFrom pat 0 (String c tail).
Proof.
  intros Hpat. revert k. induction pre as [|a pre IH]; intros k Hk.
  - simpl in Hk. assert (k = 0%nat) as -> by lia. reflexivity.
  - change (String a pre ++ String c tail) with (String a (pre ++ String c tail)).
    cbn [removeAllFrom]. destruct k as [|k].
    + change (String a (pre ++ String c tail)) with (String a pre ++ String c tail).
      rewrite (prefix_stop pat (String a pre) tail c Hpat).
      destruct (String.prefix pat (String a pre)) eqn:Hp.
      * apply IH. apply prefix_length in Hp. simpl in Hp. lia.
      * simpl. rewrite IH by lia. reflexivity.
    + apply IH. simpl in Hk. lia.
Qed.

(** A stretch without the pattern's first character is copied. *)
Lemma removeAllFrom_copy (p : ascii) (pat s t : string) :
  occurs p s = false ->
  removeAllFrom (String p pat) 0 (s ++ t) = s ++ removeAllFrom (String p pat) 0 t.
Proof.
  induction s as [|a s IH]; intros H; [reflexivity|].
  simpl in H. apply orb_false_elim in H as [Ha Hs].
  change (String a s ++ t) with (String a (s ++ t)).
  cbn [removeAllFrom String.prefix].
  destruct (ascii_dec p a) as [->|_].
  - rewrite Ascii.eqb_refl in Ha. discriminate.
  - simpl. now rewrite IH.
Qed.

Lemma occurs_removeAllFrom (c : ascii) (pat s : string) (k : nat) :
  occurs c s = false -> occurs c (removeAllFrom pat k s) = false.
Proof.
  revert k. induction s as [|a s IH]; intros k H; [reflexivity|].
  simpl in H. apply orb_false_elim in H as [Ha Hs].
  cbn [removeAllFrom]. destruct k as [|k]; [|now apply IH].
  destruct (String.prefix pat (String a s)); [now apply IH|].
  simpl. rewrite Ha. now apply IH.
Qed.

(** Removing a fence pattern around a braced stretch that has no backtick. *)
Lemma removeAll_around (p : ascii) (pat pre mid post : string) :
  occurs "{" (String p pat) = false ->
  occurs p (String "{" (mid ++ "}")) = false ->
  removeAll (String p pat) (pre ++ String "{" (mid ++ "}") ++ post)
  = removeAll (String p pat) pre ++ String "{" (mid ++ "}")
    ++ removeAll (String p pat) post.
Proof.
  intros Hpat Hobj. unfold removeAll.
  change (String "{" (mid ++ "}") ++ post) with (String "{" ((mid ++ "}") ++ post)).
  rewrite removeAllFrom_stop by (auto; lia).
  f_equal.
  change (String "{" ((mid ++ "}") ++ post)) with (String "{" (mid ++ "}") ++ post).
  now apply removeAllFrom_copy.
Qed.

Lemma stripFences_around (pre mid post : string) :
  occurs "`" mid = false ->
  stripFences (pre ++ String "{" (mid ++ "}") ++ post)
  = stripFences pre ++ String "{" (mid ++ "}") ++ stripFences post.
Proof.
  intros Hmid.
  assert (Hobj : occurs "`" (String "{" (mid ++ "}")) = false).
  { simpl. rewrite occurs_append, Hmid. reflexivity. }
  unfold stripFences.
  rewrite (removeAll_around "`" "``json") by (reflexivity || exact Hobj).
  now rewrite (removeAll_around "`" "``") by (reflexivity || exact Hobj).
Qed.

Lemma occurs_stripFences (c : ascii) (s : string) :
  occurs c s = false -> occurs c (stripFences s) = false.
Proof.
  intros H. unfold stripFences, removeAll. now apply occurs_removeAllFrom, occurs_removeAllFrom.
Qed.

(** On a cleaned text of the shape [pre {mid} post], with no opening brace
    before and no closing brace behind, the two searches find the outer
    braces and the substring is the braced stretch. *)
Lemma extract_braced (pre mid post : string) :
  occurs "{" pre = false -> occurs "}" post = false ->
  indexOf "{" (pre ++ String "{" (mid ++ "}") ++ post) = Some (String.length pre) /\
  lastIndexOf "}" (pre ++ String "{" (mid ++ "}") ++ post)
  = Some (String.length pre + String.length mid + 1)%nat /\
  js_substring (String.length pre) (String.length pre + String.length mid + 1 + 1)
               (pre ++ String "{" (mid ++ "}") ++ post)
  = String "{" (mid ++ "}").
Proof.
  intros Hpre Hpost. split; [|split].
  - change (String "{" (mid ++ "}") ++ post) with (String "{" ((mid ++ "}") ++ post)).
    now apply indexOf_first.
  - replace (pre ++ String "{" (mid ++ "}") ++ post)
      with ((pre ++ String "{" mid) ++ String "}" post).
    + rewrite (lastIndexOf_last "}" _ post Hpost), length_append. simpl.
      f_equal. lia.
    + rewrite append_assoc, !append_cons, (append_assoc mid). reflexivity.
  - unfold js_substring.
    rewrite Nat.min_l, Nat.max_r by lia.
    replace (String.length pre + String.length mid + 1 + 1 - String.length pre)%nat
      with (String.length (String "{" (mid ++ "}")))
      by (simpl; rewrite length_append; simpl; lia).
    rewrite substring_skip. apply substring_take.
Qed.

Example cleanJson_fenced_reply :
  cleanJson ("Sure! ```json" ++ nl ++ summaryObject ++ nl ++ "``` done")
  = summaryObject.
Proof. reflexivity. Qed.

(** Counterexample to C8 as stated: the reply [123] has no brace, yet it is
    valid JSON and validation hands it on as the parsed result; and a command
    object behind prose that itself has a brace pair is rejected. *)
Lemma braceless_json_is_accepted :
  indexOf "{" (stripFences "123") = None /\
  lastIndexOf "}" (stripFences "123") = None /\
  validateResponse "123" = Parsed (JSON.Number "123") /\
  JSON.parse summaryObject = Some (JSON.Object [("summary", JSON.Str "ok")]) /\
  validateResponse ("As {requested}: " ++ summaryObject) = InvalidResponse.
Proof. repeat split; vm_compute; reflexivity. Qed.

(** C8, amended.  The response text is stripped of code fences; when it then
    has an opening and a closing brace, the substring from the first opening
    brace to the last closing brace is parsed, so an object without backticks
    validates as it would on its own when the text before it has no opening
    brace and the text behind it no closing brace.  When a brace is missing,
    the whole stripped, trimmed text is parsed instead: a non-empty response
    is reported as invalid exactly when that text is not valid JSON. *)
Theorem cleanJson_extracts_or_trims :
  (forall pre mid post : string,
      occurs "{" pre = false -> occurs "}" post = false -> occurs "`" mid = false ->
      cleanJson (pre ++ String "{" (mid ++ "}") ++ post) = String "{" (mid ++ "}") /\
      validateResponse (pre ++ String "{" (mid ++ "}") ++ post)
      = parsedOrInvalid (String "{" (mid ++ "}"))) /\
  (forall (text : string) (start end_ : nat),
      indexOf "{" (stripFences text) = Some start ->
      lastIndexOf "}" (stripFences text) = Some end_ ->
      cleanJson text = js_substring start (end_ + 1) (stripFences text)) /\
  (forall text : string,
      indexOf "{" (stripFences text) = None \/
      lastIndexOf "}" (stripFences text) = None ->
      cleanJson text = trim (stripFences text) /\
      (truthy text = true ->
       validateResponse text = parsedOrInvalid (trim (stripFences text))) /\
      (validateResponse text = InvalidResponse <->
       truthy text = true /\ JSON.parse (trim (stripFences text)) = None)).
Proof.
  split; [|split].
  - intros pre mid post Hpre Hpost Hmid.
    assert (Hclean : cleanJson (pre ++ String "{" (mid ++ "}") ++ post)
                     = String "{" (mid ++ "}")).
    { unfold cleanJson. rewrite (stripFences_around pre mid post Hmid).
      destruct (extract_braced (stripFences pre) mid (stripFences post))
        as (Hi & Hl & Hs);
        [now apply occurs_stripFences | now apply occurs_stripFences |].
      rewrite Hi, Hl. exact Hs. }
    split; [exact Hclean|]. unfold validateResponse, parsedOrInvalid.
    rewrite Hclean. now destruct pre.
  - intros text start end_ Hs He. unfold cleanJson. now rewrite Hs, He.
  - intros text H.
    assert (Hclean : cleanJson text = trim (stripFences text)).
    { unfold cleanJson. destruct H as [-> | ->]; [reflexivity|].
      now destruct (indexOf "{" (stripFences text)). }
    split; [exact Hclean|].
    unfold validateResponse, parsedOrInvalid. rewrite Hclean.
    split; [now intros ->|].
    destruct (truthy text);
      destruct (JSON.parse (trim (stripFences text))); split;
      try congruence; try tauto; intros [? ?]; congruence.
Qed.

Lemma cleanJson_extracts_or_trims_witness :
  cleanJson ("Here you go: " ++ String "{" (summaryMembers ++ "}") ++ " Bye.")
  = String "{" (summaryMembers ++ "}") /\
  validateResponse
    ("Here you go: " ++ String "{" (summaryMembers ++ "}") ++ " Bye.")
  = parsedOrInvalid (String "{" (summaryMembers ++ "}")).
Proof.
  destruct cleanJson_extracts_or_trims as [H _].
  apply (H "Here you go: " summaryMembers " Bye."); reflexivity.
Defined.


(** * Further properties of the sources *)

Local Close Scope string_scope.

(** ** What the service's sanitisation guarantees *)

Lemma sanitizeNumber_inRange (val : option number) (lo hi f : Q) :
  lo <= hi -> lo <= f <= hi ->
  inRange lo hi (sanitizeNumber val (Fin lo) (Fin hi) (Some (Fin f))).
Proof.
  intros Hlh Hf. unfold sanitizeNumber.
  destruct (parseFloat val) as [n| | |]; simpl isNaN; simpl isFinite;
    cbn [orb negb]; try exact Hf.
  destruct (clamp_cases n lo hi Hlh) as (r & -> & Hr & _). exact Hr.
Qed.

Lemma sanitizeNumber_inRange_min (val : option number) (lo hi : Q) :
  lo <= hi -> inRange lo hi (sanitizeNumber val (Fin lo) (Fin hi) None).
Proof.
  intros Hlh. unfold sanitizeNumber.
  destruct (parseFloat val) as [n| | |]; simpl isNaN; simpl isFinite;
    cbn [orb negb]; try (simpl; lra).
  destruct (clamp_cases n lo hi Hlh) as (r & -> & Hr & _). exact Hr.
Qed.

Lemma inRange_Fin (lo hi : Q) (n : number) :
  inRange lo hi n -> exists r, n = Fin r /\ lo <= r <= hi.
Proof. destruct n as [q| | |]; simpl; intros H; try tauto. eauto. Qed.

(** X1. Whatever numbers the model put into a new body, the body that leaves
    the service has real coordinates in [[-2000, 2000]] and a friction in
    [[0, 1]]; a circle has a radius in [[1, 400]], a rectangle a width and a
    height in [[1, 2000]].  For any other [type] the size fields are passed on
    unsanitised. *)
Theorem sanitizeNewBody_ranges (timestamp : string) (b : BodyDef.t) :
  inRange (-2000) 2000 (BodyDef.x (sanitizeNewBody timestamp b)) /\
  inRange (-2000) 2000 (BodyDef.y (sanitizeNewBody timestamp b)) /\
  (exists f, BodyDef.friction (sanitizeNewBody timestamp b) = Some f /\ inRange 0 1 f) /\
  (BodyDef.type b = "circle"%string ->
   exists r, BodyDef.radius (sanitizeNewBody timestamp b) = Some r /\ inRange 1 400 r) /\
  (BodyDef.type b = "rectangle"%string ->
   exists w h,
     BodyDef.width (sanitizeNewBody timestamp b) = Some w /\ inRange 1 2000 w /\
     BodyDef.height (sanitizeNewBody timestamp b) = Some h /\ inRange 1 2000 h) /\
  (BodyDef.type b <> "circle"%string ->
   BodyDef.radius (sanitizeNewBody timestamp b) = BodyDef.radius b) /\
  (BodyDef.type b <> "rectangle"%string ->
   BodyDef.width (sanitizeNewBody timestamp b) = BodyDef.width b /\
   BodyDef.height (sanitizeNewBody timestamp b) = BodyDef.height b).
Proof.
  unfold sanitizeNewBody. cbn [BodyDef.x BodyDef.y BodyDef.friction BodyDef.radius
    BodyDef.width BodyDef.height].
  repeat split.
  - apply sanitizeNumber_inRange; lra.
  - apply sanitizeNumber_inRange; lra.
  - eexists. split; [reflexivity|]. apply sanitizeNumber_inRange; lra.
  - intros ->. cbn. eexists. split; [reflexivity|].
    apply sanitizeNumber_inRange; lra.
  - intros ->. cbn. do 2 eexists. split; [reflexivity|]. split.
    + apply sanitizeNumber_inRange; lra.
    + split; [reflexivity|]. apply sanitizeNumber_inRange; lra.
  - intros H. apply String.eqb_neq in H. now rewrite H.
  - apply String.eqb_neq in H. now rewrite H.
  - apply String.eqb_neq in H. now rewrite H.
Qed.

Lemma sanitizeNewBody_ranges_witness :
  exists r,
    BodyDef.radius (sanitizeNewBody "1234"
                      {| BodyDef.id := "sun"; BodyDef.type := "circle";
                         BodyDef.x := PosInf; BodyDef.y := NaN;
                         BodyDef.width := None; BodyDef.height := None;
                         BodyDef.radius := Some (Fin 5000); BodyDef.angle := None;
                         BodyDef.isStatic := false; BodyDef.color := None;
                         BodyDef.friction := None |}) = Some r /\
    inRange 1 400 r.
Proof.
  destruct (sanitizeNewBody_ranges "1234"
              {| BodyDef.id := "sun"; BodyDef.type := "circle";
                 BodyDef.x := PosInf; BodyDef.y := NaN;
                 BodyDef.width := None; BodyDef.height := None;
                 BodyDef.radius := Some (Fin 5000); BodyDef.angle := None;
                 BodyDef.isStatic := false; BodyDef.color := None;
                 BodyDef.friction := None |}) as (_ & _ & _ & H & _).
  apply H. reflexivity.
Defined.



Lemma sanitizeDefined_twice_self (lo hi : Q) (field : option number) :
  lo <= hi ->
  sanitizeDefined (sanitizeDefined field (Fin lo) (Fin hi) field) (Fin lo) (Fin hi)
                  (sanitizeDefined field (Fin lo) (Fin hi) field)
  = sanitizeDefined field (Fin lo) (Fin hi) field.
Proof.
  intros Hlh. destruct field as [[q| | |]|]; try reflexivity.
  cbn [sanitizeDefined].
  destruct (clamp_cases q lo hi Hlh) as (r & Hclamp & Hr & _).
  assert (H : sanitizeNumber (Some (Fin q)) (Fin lo) (Fin hi) (Some (Fin q)) = Fin r)
    by exact Hclamp.
  rewrite H. unfold sanitizeNumber. simpl parseFloat. cbn [isNaN isFinite orb negb].
  now rewrite (clamp_fixed r lo hi Hr).
Qed.

Lemma sanitizeDefined_twice (lo hi f : Q) (field : option number) :
  lo <= hi -> lo <= f <= hi ->
  sanitizeDefined (sanitizeDefined field (Fin lo) (Fin hi) (Some (Fin f)))
                  (Fin lo) (Fin hi) (Some (Fin f))
  = sanitizeDefined field (Fin lo) (Fin hi) (Some (Fin f)).
Proof.
  intros Hlh Hf. destruct field as [v|]; [|reflexivity].
  cbn [sanitizeDefined].
  destruct (inRange_Fin _ _ _ (sanitizeNumber_inRange (Some v) lo hi f Hlh Hf))
    as (r & -> & Hr).
  unfold sanitizeNumber. simpl parseFloat. cbn [isNaN isFinite orb negb].
  now rewrite (clamp_fixed r lo hi Hr).
Qed.

(** X3. Sanitising an updated-body fragment a second time changes nothing. *)
Theorem sanitizeUpdatedBody_idempotent (b : BodyUpdate.t) :
  sanitizeUpdatedBody (sanitizeUpdatedBody b) = sanitizeUpdatedBody b.
Proof.
  unfold sanitizeUpdatedBody. cbn [BodyUpdate.x BodyUpdate.y BodyUpdate.radius
    BodyUpdate.width BodyUpdate.height BodyUpdate.friction BodyUpdate.id
    BodyUpdate.type BodyUpdate.angle BodyUpdate.isStatic BodyUpdate.color].
  rewrite !sanitizeDefined_twice_self by lra.
  rewrite sanitizeDefined_twice by lra.
  reflexivity.
Qed.

Lemma createConstraint_stiffness (bodiesMap : gmap string MatterBody.t)
    (c : ConstraintDef.t) (m : MatterConstraint.t) :
  createConstraint bodiesMap c = Some m ->
  (forall s, ConstraintDef.stiffness c = Some s -> truthyNumber s = true) ->
  MatterConstraint.stiffness m = over (Fin 0.1) (ConstraintDef.stiffness c) /\
  MatterConstraint.length m = ConstraintDef.length c.
Proof.
  intros Hm Hs. unfold createConstraint in Hm.
  destruct (getBody bodiesMap _) as [bodyA|]; [|discriminate].
  injection Hm as <-. cbn [MatterConstraint.stiffness MatterConstraint.length].
  split; [|reflexivity].
  destruct (ConstraintDef.stiffness c) as [s|]; [|reflexivity].
  now rewrite (Hs s eq_refl).
Qed.

(** X4. A sanitized constraint has, when they are given at all, a real
    stiffness in [[0.001, 1]] and a real length in [[1, 1000]] (a non-finite
    length falls back to 1, the minimum, since no fallback is passed); its
    [pointB] is untouched.  The sanitized stiffness is never falsy, so the
    engine constraint built from it carries exactly that stiffness, and 0.1
    only when the stiffness is missing. *)
Theorem sanitizeConstraint_ranges (idMap : gmap string string)
    (bodiesMap : gmap string MatterBody.t) (c : ConstraintDef.t) :
  match ConstraintDef.stiffness c with
  | None => ConstraintDef.stiffness (sanitizeConstraint idMap c) = None
  | Some _ =>
      exists r, ConstraintDef.stiffness (sanitizeConstraint idMap c) = Some (Fin r) /\
                0.001 <= r <= 1
  end /\
  match ConstraintDef.length c with
  | None => ConstraintDef.length (sanitizeConstraint idMap c) = None
  | Some l =>
      exists r, ConstraintDef.length (sanitizeConstraint idMap c) = Some (Fin r) /\
                1 <= r <= 1000 /\ (isFinite l = false -> r = 1)
  end /\
  ConstraintDef.pointB (sanitizeConstraint idMap c) = ConstraintDef.pointB c /\
  forall m, createConstraint bodiesMap (sanitizeConstraint idMap c) = Some m ->
    MatterConstraint.stiffness m
    = over (Fin 0.1) (ConstraintDef.stiffness (sanitizeConstraint idMap c)) /\
    MatterConstraint.length m = ConstraintDef.length (sanitizeConstraint idMap c).
Proof.
  assert (Hst : match ConstraintDef.stiffness c with
                | None => ConstraintDef.stiffness (sanitizeConstraint idMap c) = None
                | Some _ =>
                    exists r, ConstraintDef.stiffness (sanitizeConstraint idMap c)
                              = Some (Fin r) /\ 0.001 <= r <= 1
                end).
  { unfold sanitizeConstraint. cbn [ConstraintDef.stiffness].
    destruct (ConstraintDef.stiffness c) as [s|]; [|reflexivity].
    cbn [sanitizeDefined].
    destruct (inRange_Fin _ _ _
                (sanitizeNumber_inRange (Some s) 0.001 1 0.1 ltac:(lra) ltac:(lra)))
      as (r & -> & Hr).
    exists r. auto. }
  split; [exact Hst|]. split; [|split; [reflexivity|]].
  - unfold sanitizeConstraint. cbn [ConstraintDef.length].
    destruct (ConstraintDef.length c) as [l|]; [|reflexivity].
    cbn [sanitizeDefined].
    destruct (inRange_Fin _ _ _
                (sanitizeNumber_inRange_min (Some l) 1 1000 ltac:(lra)))
      as (r & Hr & Hb).
    exists r. split; [now rewrite Hr|]. split; [exact Hb|].
    intros Hl. destruct l as [q| | |]; try discriminate;
      unfold sanitizeNumber in Hr; simpl in Hr; congruence.
  - intros m Hm. apply (createConstraint_stiffness bodiesMap _ m Hm).
    intros s Hs. destruct (ConstraintDef.stiffness c) as [s0|].
    + destruct Hst as (r & Hst & Hr). rewrite Hst in Hs. injection Hs as <-.
      cbn [truthyNumber]. destruct (Qeq_bool r 0) eqn:E; [|reflexivity].
      apply Qeq_bool_iff in E. lra.
    + congruence.
Qed.

(** ** World construction *)

Lemma buildBodiesMap_snoc (bs : list BodyDef.t) (b : BodyDef.t) :
  buildBodiesMap (bs ++ [b]) = addBody (buildBodiesMap bs) b.
Proof. unfold buildBodiesMap. now rewrite fold_left_app. Qed.

Lemma addBody_lookup (m : gmap string MatterBody.t) (b : BodyDef.t) (k : string) :
  addBody m b !! k
  = if finiteBody b && bool_decide (BodyDef.id b = k) then Some (createBody b)
    else m !! k.
Proof.
  unfold addBody, finiteBody.
  destruct (isFinite (BodyDef.x b)); destruct (isFinite (BodyDef.y b));
    cbn [negb orb andb]; try reflexivity.
  destruct (bool_decide_reflect (BodyDef.id b = k)) as [->|Hne].
  - apply lookup_insert_eq.
  - now apply lookup_insert_ne.
Qed.

(** Every entry of the map comes from a body of the scene with finite
    coordinates, stored under its own id. *)
Lemma buildBodiesMap_sound (bs : list BodyDef.t) (k : string) (mb : MatterBody.t) :
  buildBodiesMap bs !! k = Some mb ->
  exists b, b ∈ bs /\ BodyDef.id b = k /\ finiteBody b = true /\ mb = createBody b.
Proof.
  revert mb. induction bs as [|b bs IH] using rev_ind; intros mb.
  - unfold buildBodiesMap. simpl. rewrite lookup_empty. discriminate.
  - rewrite buildBodiesMap_snoc, addBody_lookup.
    destruct (finiteBody b) eqn:Hf; cbn [andb].
    + destruct (bool_decide_reflect (BodyDef.id b = k)) as [Hk|Hk].
      * intros [= <-]. exists b. split; [apply elem_of_app; right; now left|auto].
      * intros H. destruct (IH mb H) as (b0 & Hb0 & Hrest).
        exists b0. split; [apply elem_of_app; now left|exact Hrest].
    + intros H. destruct (IH mb H) as (b0 & Hb0 & Hrest).
      exists b0. split; [apply elem_of_app; now left|exact Hrest].
Qed.

(** X5. The world's body table holds nothing but bodies of the scene: a key
    is the id of a body with finite coordinates, and the entry carries that
    id as its label.  When the ids of the scene are unique, each body with
    finite coordinates is found under its id and each body with a [NaN] or
    infinite coordinate is left out. *)
Theorem buildBodiesMap_lookup (bs : list BodyDef.t) :
  (forall k mb, buildBodiesMap bs !! k = Some mb ->
     MatterBody.label mb = k /\
     exists b, b ∈ bs /\ BodyDef.id b = k /\ finiteBody b = true /\ mb = createBody b) /\
  (NoDup (bodyIds bs) ->
   forall b, b ∈ bs ->
     buildBodiesMap bs !! BodyDef.id b
     = if finiteBody b then Some (createBody b) else None).
Proof.
  split.
  - intros k mb H. destruct (buildBodiesMap_sound bs k mb H) as (b & Hb & Hk & Hf & ->).
    split; [exact Hk|]. exists b. auto.
  - induction bs as [|b0 bs IH] using rev_ind; intros Hnd b Hb.
    + inversion Hb.
    + rewrite bodyIds_app in Hnd. apply NoDup_app in Hnd as (Hnd & Hdisj & _).
      rewrite buildBodiesMap_snoc, addBody_lookup.
      apply elem_of_app in Hb as [Hb|Hb].
      * assert (Hne : BodyDef.id b0 <> BodyDef.id b).
        { intros Heq. apply (Hdisj (BodyDef.id b)).
          - now apply id_in_bodyIds.
          - rewrite <- Heq. unfold bodyIds. simpl. now left. }
        rewrite (bool_decide_eq_false_2 _ Hne), andb_false_r.
        now apply IH.
      * apply list_elem_of_singleton in Hb as ->.
        rewrite (bool_decide_eq_true_2 _ eq_refl), andb_true_r.
        destruct (finiteBody b0); [reflexivity|].
        apply buildBodiesMap_unknown. intros Hin. apply (Hdisj (BodyDef.id b0) Hin).
        unfold bodyIds. simpl. now left.
Qed.

Lemma buildBodiesMap_lookup_witness :
  buildBodiesMap [ball "a"; ball "b"] !! BodyDef.id (ball "b")
  = if finiteBody (ball "b") then Some (createBody (ball "b")) else None.
Proof.
  destruct (buildBodiesMap_lookup [ball "a"; ball "b"]) as [_ H].
  apply H.
  - apply (bool_decide_eq_true_1 (NoDup _)). vm_compute. reflexivity.
  - apply elem_of_cons. right. apply elem_of_cons. now left.
Defined.

Lemma buildBodiesMap_complete (bs : list BodyDef.t) (k : string) :
  Forall (fun b => finiteBody b = true) bs -> k ∈ bodyIds bs ->
  exists mb, buildBodiesMap bs !! k = Some mb /\ MatterBody.label mb = k.
Proof.
  induction bs as [|b bs IH] using rev_ind; intros Hfin Hk.
  - inversion Hk.
  - apply Forall_app in Hfin as [Hfin Hb]. apply Forall_inv in Hb.
    rewrite buildBodiesMap_snoc, addBody_lookup, Hb. cbn [andb].
    destruct (bool_decide_reflect (BodyDef.id b = k)) as [Heq|Hne].
    + exists (createBody b). split; [reflexivity|exact Heq].
    + apply IH; [exact Hfin|]. rewrite bodyIds_app in Hk.
      apply elem_of_app in Hk as [Hk|Hk]; [exact Hk|].
      apply list_elem_of_singleton in Hk. congruence.
Qed.

Lemma createConstraint_bodyA (bodiesMap : gmap string MatterBody.t)
    (c : ConstraintDef.t) (m : MatterConstraint.t) :
  createConstraint bodiesMap c = Some m ->
  getBody bodiesMap (ConstraintDef.bodyAId c) = Some (MatterConstraint.bodyA m).
Proof.
  unfold createConstraint.
  destruct (getBody bodiesMap (ConstraintDef.bodyAId c)) as [a|]; [|discriminate].
  now intros [= <-].
Qed.

(** X6. The world never attaches a constraint to a body that is not in the
    scene, and it builds at most one engine constraint per scene constraint.
    When no constraint of the scene dangles and every body has finite
    coordinates, it builds exactly one engine constraint for each scene
    constraint, in order, on the body named by [bodyAId]. *)
Theorem worldConstraints_complete (s : SceneConfig.t) :
  (length (worldConstraints s) <= length (SceneConfig.constraints s))%nat /\
  (forall m, m ∈ worldConstraints s ->
     MatterBody.label (MatterConstraint.bodyA m) ∈ bodyIds (SceneConfig.bodies s)) /\
  (noDangling s -> Forall (fun b => finiteBody b = true) (SceneConfig.bodies s) ->
   Forall2 (fun c m => Str (MatterBody.label (MatterConstraint.bodyA m))
                       = ConstraintDef.bodyAId c)
           (SceneConfig.constraints s) (worldConstraints s)).
Proof.
  unfold worldConstraints. set (bodiesMap := buildBodiesMap (SceneConfig.bodies s)).
  split; [|split].
  - induction (SceneConfig.constraints s) as [|c cs IH]; [simpl; lia|].
    unfold omap in *. simpl.
    destruct (createConstraint bodiesMap c); simpl; lia.
  - intros m Hm. apply list_elem_of_omap in Hm as (c & _ & Hc).
    apply createConstraint_bodyA, getBody_Some in Hc as (k & _ & Hc).
    destruct (buildBodiesMap_sound _ _ _ Hc) as (b & Hb & Hid & _ & Hmb).
    rewrite Hmb. cbn. now apply id_in_bodyIds.
  - intros Hd Hfin. unfold noDangling in Hd.
    induction (SceneConfig.constraints s) as [|c cs IH]; simpl; [constructor|].
    apply Forall_cons in Hd as [Hc Hcs].
    unfold references in Hc. apply Forall_cons in Hc as [Ha _].
    apply elem_of_Str in Ha as (k & Hk & Ha).
    destruct (buildBodiesMap_complete _ _ Hfin Ha) as (mb & Hmb & Hlabel).
    unfold createConstraint at 1. rewrite Hk. cbn [getBody].
    fold bodiesMap in Hmb. rewrite Hmb.
    constructor; [cbn [MatterConstraint.bodyA]; now rewrite Hlabel|]. now apply IH.
Qed.

Lemma worldConstraints_complete_witness :
  Forall2 (fun c m => Str (MatterBody.label (MatterConstraint.bodyA m))
                      = ConstraintDef.bodyAId c)
    [link "bob" (Some "pivot"%string); link "pivot" None]
    (worldConstraints
       {| SceneConfig.bodies := [ball "pivot"; ball "bob"];
          SceneConfig.constraints :=
            [link "bob" (Some "pivot"%string); link "pivot" None] |}).
Proof.
  destruct (worldConstraints_complete
              {| SceneConfig.bodies := [ball "pivot"; ball "bob"];
                 SceneConfig.constraints :=
                   [link "bob" (Some "pivot"%string); link "pivot" None] |})
    as (_ & _ & H).
  apply H.
  - apply (bool_decide_eq_true_1 (noDangling _)). vm_compute. reflexivity.
  - repeat constructor.
Defined.

(** X7. An engine constraint always has a second anchor: the body named by a
    non-empty [bodyBId] that is in the body table, or a point.  A given
    [pointB] is always used; without one, a constraint whose [bodyBId] is
    missing, empty or unknown to the table is tied to the world point
    (0, 0). *)
Theorem createConstraint_second_anchor (bodiesMap : gmap string MatterBody.t)
    (c : ConstraintDef.t) (m : MatterConstraint.t) :
  createConstraint bodiesMap c = Some m ->
  (is_Some (MatterConstraint.bodyB m) \/ is_Some (MatterConstraint.pointB m)) /\
  (forall p, ConstraintDef.pointB c = Some p -> MatterConstraint.pointB m = Some p) /\
  (ConstraintDef.pointB c = None ->
   MatterConstraint.bodyB m = None -> MatterConstraint.pointB m = Some origin) /\
  (MatterConstraint.bodyB m = None <->
   match ConstraintDef.bodyBId c with
   | Some b => truthyId b = false \/ getBody bodiesMap b = None
   | None => True
   end).
Proof.
  unfold createConstraint.
  destruct (getBody bodiesMap (ConstraintDef.bodyAId c)) as [a|]; [|discriminate].
  intros [= <-]. cbn [MatterConstraint.bodyB MatterConstraint.pointB].
  split; [|split; [|split]].
  - destruct (ConstraintDef.pointB c); [right; eauto|].
    destruct (ConstraintDef.bodyBId c) as [b|]; [|right; eauto].
    destruct (truthyId b); [|right; eauto].
    destruct (getBody bodiesMap b); [left; eauto|right; eauto].
  - now intros p ->.
  - intros -> Hb. now rewrite Hb.
  - destruct (ConstraintDef.bodyBId c) as [b|]; [|tauto].
    destruct (truthyId b); [|tauto].
    destruct (getBody bodiesMap b); split; try tauto; try discriminate.
    intros [H|H]; discriminate.
Qed.

Lemma createConstraint_second_anchor_witness :
  exists m,
    createConstraint (buildBodiesMap [ball "a"]) (link "a" (Some "ghost"%string))
    = Some m /\
    MatterConstraint.bodyB m = None /\ MatterConstraint.pointB m = Some origin.
Proof.
  eexists. split; [reflexivity|].
  destruct (createConstraint_second_anchor
              (buildBodiesMap [ball "a"]) (link "a" (Some "ghost"%string)) _ eq_refl)
    as (_ & _ & Hp & Hb).
  split; [|apply Hp; [reflexivity|]]; apply Hb; right; reflexivity.
Defined.

(** ** Body styling and shape *)

Lemma orDefault_inRange (lo hi d : Q) (n : number) :
  0 < lo -> inRange lo hi n -> orDefault (Some n) d = n.
Proof.
  intros Hlo Hn. destruct n as [q| | |]; simpl in Hn; try tauto.
  unfold orDefault, truthyNumber.
  destruct (Qeq_bool q 0) eqn:E; [|reflexivity].
  apply Qeq_bool_iff in E. lra.
Qed.

(** X8. The border of a body is thick (4) exactly when it is coloured, that
    is when the friction is below 0.05 or above 0.5; otherwise, and for a
    [NaN] friction, it is white and thin (2).  A body without friction gets
    the default 0.1 and with it the white, thin border. *)
Theorem border_width_matches_colour (friction : number) (def : BodyDef.t) :
  (lineWidth friction = 4%nat <-> strokeColor friction <> "#fff"%string) /\
  (lineWidth friction = 2%nat <-> strokeColor friction = "#fff"%string) /\
  (strokeColor friction = "#67e8f9"%string <-> lessThan friction (Fin 0.05) = true) /\
  (strokeColor friction = "#fbbf24"%string <-> lessThan (Fin 0.5) friction = true) /\
  (strokeColor NaN = "#fff"%string) /\
  (BodyDef.friction def = None ->
   strokeColor (frictionOf def) = "#fff"%string /\ lineWidth (frictionOf def) = 2%nat).
Proof.
  assert (Hexcl : lessThan friction (Fin 0.05) = true ->
                  lessThan (Fin 0.5) friction = true -> False).
  { destruct friction as [q| | |]; simpl; try discriminate.
    unfold Qltb. intros H1 H2.
    apply negb_true_iff in H1, H2.
    destruct (Qle_bool_cases 0.05 q) as [[_ E]|[Hq _]]; [congruence|].
    destruct (Qle_bool_cases q 0.5) as [[_ E]|[Hq' _]]; [congruence|]. lra. }
  assert (Hdefault : BodyDef.friction def = None ->
            strokeColor (frictionOf def) = "#fff"%string /\
            lineWidth (frictionOf def) = 2%nat).
  { intros H. unfold frictionOf. rewrite H. split; reflexivity. }
  assert (Hnan : strokeColor NaN = "#fff"%string) by reflexivity.
  revert Hdefault Hnan. generalize (strokeColor NaN) (frictionOf def).
  intros sNaN fdef Hdefault Hnan.
  unfold lineWidth at 1 2, strokeColor at 1 2 3 4.
  destruct (lessThan friction (Fin 0.05)) eqn:E1;
    destruct (lessThan (Fin 0.5) friction) eqn:E2; cbn [orb];
    try (exfalso; now apply Hexcl);
    (split; [|split; [|split; [|split; [|split; [exact Hnan|exact Hdefault]]]]]);
    split; intros H; try discriminate H; try congruence; try reflexivity.
Qed.

(** X9. A new body that went through the service's sanitisation is never
    skipped by the world builder.  A circle is built with its sanitized
    radius, in [[1, 400]], and a rectangle with its sanitized width and
    height, in [[1, 2000]]: the defaults 20, 100 and 20 of the canvas never
    apply to them.  A body of any other type is built as a rectangle from its
    unsanitised [width] and [height], or 100 and 20 where these are missing
    or zero. *)
Theorem sanitized_body_is_built (timestamp : string) (b : BodyDef.t) :
  exists x y,
    BodyDef.x (sanitizeNewBody timestamp b) = Fin x /\ -2000 <= x <= 2000 /\
    BodyDef.y (sanitizeNewBody timestamp b) = Fin y /\ -2000 <= y <= 2000 /\
    finiteBody (sanitizeNewBody timestamp b) = true /\
    (BodyDef.type b = "circle"%string ->
     exists r, 1 <= r <= 400 /\
       BodyDef.radius (sanitizeNewBody timestamp b) = Some (Fin r) /\
       bodyShape (sanitizeNewBody timestamp b) = Some (circle (Fin x) (Fin y) (Fin r))) /\
    (BodyDef.type b = "rectangle"%string ->
     exists w h, 1 <= w <= 2000 /\ 1 <= h <= 2000 /\
       BodyDef.width (sanitizeNewBody timestamp b) = Some (Fin w) /\
       BodyDef.height (sanitizeNewBody timestamp b) = Some (Fin h) /\
       bodyShape (sanitizeNewBody timestamp b)
       = Some (rectangle (Fin x) (Fin y) (Fin w) (Fin h))) /\
    (BodyDef.type b <> "circle"%string -> BodyDef.type b <> "rectangle"%string ->
     bodyShape (sanitizeNewBody timestamp b)
     = Some (rectangle (Fin x) (Fin y)
                       (orDefault (BodyDef.width b) 100)
                       (orDefault (BodyDef.height b) 20))).
Proof.
  destruct (inRange_Fin _ _ _
              (sanitizeNumber_inRange (Some (BodyDef.x b)) (-2000) 2000 400
                 ltac:(lra) ltac:(lra))) as (x & Hx & Hxr).
  destruct (inRange_Fin _ _ _
              (sanitizeNumber_inRange (Some (BodyDef.y b)) (-2000) 2000 300
                 ltac:(lra) ltac:(lra))) as (y & Hy & Hyr).
  exists x, y.
  unfold bodyShape, finiteBody, sanitizeNewBody.
  cbn [BodyDef.x BodyDef.y BodyDef.type BodyDef.radius BodyDef.width BodyDef.height].
  rewrite Hx, Hy. cbn [isFinite negb orb andb].
  split; [reflexivity|]. split; [exact Hxr|]. split; [reflexivity|].
  split; [exact Hyr|]. split; [reflexivity|]. split; [|split].
  - intros ->. rewrite !String.eqb_refl. cbn iota.
    destruct (inRange_Fin _ _ _
                (sanitizeNumber_inRange (BodyDef.radius b) 1 400 20
                   ltac:(lra) ltac:(lra))) as (r & Hr & Hrr).
    exists r. split; [exact Hrr|]. rewrite Hr. split; [reflexivity|].
    rewrite (orDefault_inRange 1 400 20 (Fin r)); [reflexivity|lra|exact Hrr].
  - intros ->. rewrite !String.eqb_refl.
    replace (String.eqb "rectangle" "circle") with false by reflexivity. cbn iota.
    destruct (inRange_Fin _ _ _
                (sanitizeNumber_inRange (BodyDef.width b) 1 2000 100
                   ltac:(lra) ltac:(lra))) as (w & Hw & Hwr).
    destruct (inRange_Fin _ _ _
                (sanitizeNumber_inRange (BodyDef.height b) 1 2000 20
                   ltac:(lra) ltac:(lra))) as (h & Hh & Hhr).
    exists w, h. split; [exact Hwr|]. split; [exact Hhr|]. rewrite Hw, Hh.
    split; [reflexivity|]. split; [reflexivity|].
    rewrite (orDefault_inRange 1 2000 100 (Fin w)); [|lra|exact Hwr].
    rewrite (orDefault_inRange 1 2000 20 (Fin h)); [reflexivity|lra|exact Hhr].
  - intros Hc Hr. apply String.eqb_neq in Hc, Hr. now rewrite Hc, Hr.
Qed.

(** ** The merge: what the merged scene consists of *)

Lemma filter_all {A : Type} (f : A -> bool) (l : list A) :
  (forall a, f a = true) -> List.filter f l = l.
Proof.
  intros H. induction l as [|a l IH]; simpl; [reflexivity|]. now rewrite H, IH.
Qed.

Lemma filter_twice {A : Type} (f g : A -> bool) (l : list A) :
  List.filter g (List.filter f l) = List.filter (fun a => f a && g a) l.
Proof.
  induction l as [|a l IH]; simpl; [reflexivity|].
  destruct (f a); simpl; [|exact IH]. destruct (g a); now rewrite IH.
Qed.

Lemma filter_ext' {A : Type} (f g : A -> bool) (l : list A) :
  (forall a, f a = g a) -> List.filter f l = List.filter g l.
Proof.
  intros H. induction l as [|a l IH]; simpl; [reflexivity|]. now rewrite H, IH.
Qed.

Lemma bodyIds_filter_kept (ids : list string) (bs : list BodyDef.t) :
  bodyIds (List.filter (fun b => negb (includes ids (BodyDef.id b))) bs)
  = List.filter (keptId ids) (bodyIds bs).
Proof.
  induction bs as [|b bs IH]; simpl; [reflexivity|].
  unfold keptId at 1. destruct (includes ids (BodyDef.id b)); simpl; [exact IH|].
  change (bodyIds (b :: ?l)) with (BodyDef.id b :: bodyIds l). now rewrite <- IH.
Qed.

Lemma survives_nil (c : ConstraintDef.t) : survives [] c = true.
Proof.
  assert (H : forall v, includesId [] v = false) by (intros [k|name]; reflexivity).
  unfold survives. rewrite H. cbn [negb andb].
  destruct (ConstraintDef.bodyBId c) as [b|]; [|reflexivity].
  rewrite H. apply orb_true_r.
Qed.

(** The scene after the (guarded) first update. *)
Lemma afterAdd_contents (response : VoiceCommandResponse.t)
    (st : option SceneConfig.t) :
  let afterAdd := if hasAdditions response then applyAdditions response st else st in
  bodyIds (bodiesOf afterAdd)
  = bodyIds (bodiesOf st) ++ bodyIds (orEmpty (VoiceCommandResponse.newBodies response)) /\
  constraintsOf afterAdd
  = constraintsOf st ++ orEmpty (VoiceCommandResponse.newConstraints response).
Proof.
  unfold hasAdditions.
  destruct (nonEmpty (VoiceCommandResponse.newBodies response)) eqn:Hb;
    destruct (nonEmpty (VoiceCommandResponse.newConstraints response)) eqn:Hc;
    destruct (nonEmpty (VoiceCommandResponse.updatedBodies response)) eqn:Hu;
    cbn [orb];
    try (rewrite applyAdditions_unfold; cbn [bodiesOf constraintsOf
           SceneConfig.bodies SceneConfig.constraints];
         now rewrite bodyIds_app, bodyIds_updatePass).
  rewrite (nonEmpty_false _ Hb), (nonEmpty_false _ Hc). cbn.
  now rewrite !app_nil_r.
Qed.

Lemma applyRemovals_contents (response : VoiceCommandResponse.t)
    (st : option SceneConfig.t) :
  bodiesOf (applyRemovals response st)
  = List.filter (keptBody (orEmpty (VoiceCommandResponse.removeBodyIds response)))
                (bodiesOf st) /\
  constraintsOf (applyRemovals response st)
  = List.filter (survives (orEmpty (VoiceCommandResponse.removeBodyIds response)))
                (constraintsOf st).
Proof. destruct st; split; reflexivity. Qed.

Lemma merged_contents (response : VoiceCommandResponse.t)
    (st : option SceneConfig.t) :
  bodyIds (bodiesOf (applyVoiceCommand response st))
  = List.filter (keptId (orEmpty (VoiceCommandResponse.removeBodyIds response)))
      (bodyIds (bodiesOf st)
       ++ bodyIds (orEmpty (VoiceCommandResponse.newBodies response))) /\
  constraintsOf (applyVoiceCommand response st)
  = List.filter (survives (orEmpty (VoiceCommandResponse.removeBodyIds response)))
      (constraintsOf st ++ orEmpty (VoiceCommandResponse.newConstraints response)).
Proof.
  destruct (afterAdd_contents response st) as [Hb Hc].
  unfold applyVoiceCommand. fold (hasAdditions response).
  set (afterAdd := if hasAdditions response then applyAdditions response st else st) in *.
  destruct (nonEmpty (VoiceCommandResponse.removeBodyIds response)) eqn:Hr.
  - destruct (applyRemovals_contents response afterAdd) as [Hb' Hc'].
    rewrite Hb', Hc'. unfold keptBody. now rewrite bodyIds_filter_kept, Hb, Hc.
  - rewrite (nonEmpty_false _ Hr).
    rewrite (filter_all (keptId [])) by reflexivity.
    rewrite (filter_all (survives [])) by apply survives_nil.
    now rewrite Hb, Hc.
Qed.

(** X10. Whatever the command and the scene (also no scene at all), the
    merged scene's body ids are the ids of the old bodies followed by the ids
    of the new bodies, in this order, without those on the removal list; and
    its constraints are the old constraints followed by the new ones,
    without those that refer to a removed id.  Updates never change an id,
    and nothing is reordered. *)
Theorem merged_scene_contents (response : VoiceCommandResponse.t)
    (st : option SceneConfig.t) :
  bodyIds (bodiesOf (applyVoiceCommand response st))
  = List.filter (keptId (orEmpty (VoiceCommandResponse.removeBodyIds response)))
      (bodyIds (bodiesOf st)
       ++ bodyIds (orEmpty (VoiceCommandResponse.newBodies response))) /\
  constraintsOf (applyVoiceCommand response st)
  = List.filter (survives (orEmpty (VoiceCommandResponse.removeBodyIds response)))
      (constraintsOf st ++ orEmpty (VoiceCommandResponse.newConstraints response)).
Proof. apply merged_contents. Qed.

(** X11. After a merge no body carries an id of the removal list, not even a
    body the same command added, and no constraint refers to such an id
    through [bodyAId] or a non-empty [bodyBId]; but the removal never takes
    more: every id that is not on the list stays. *)
Theorem removal_is_exact (response : VoiceCommandResponse.t)
    (st : option SceneConfig.t) (k : string) :
  (k ∈ orEmpty (VoiceCommandResponse.removeBodyIds response) ->
   (k ∉ bodyIds (bodiesOf (applyVoiceCommand response st))) /\
   forall c, c ∈ constraintsOf (applyVoiceCommand response st) ->
             Str k ∉ references c) /\
  (k ∉ orEmpty (VoiceCommandResponse.removeBodyIds response) ->
   (k ∈ bodyIds (bodiesOf (applyVoiceCommand response st)) <->
    k ∈ bodyIds (bodiesOf st)
    \/ k ∈ bodyIds (orEmpty (VoiceCommandResponse.newBodies response)))).
Proof.
  destruct (merged_contents response st) as [Hb Hc].
  set (ids := orEmpty (VoiceCommandResponse.removeBodyIds response)) in *.
  split.
  - intros Hk. split.
    + rewrite Hb. intros Hin. apply list_elem_of_In, filter_In in Hin as [_ Hkept].
      unfold keptId in Hkept. apply negb_true_iff, includes_false in Hkept. tauto.
    + intros c Hin Href. rewrite Hc in Hin.
      apply list_elem_of_In, filter_In in Hin as [_ Hs].
      pose proof (survives_references ids c Hs) as Hrefs.
      apply (proj1 (Forall_forall _ _) Hrefs (Str k) Href).
      now apply Str_elem_of.
  - intros Hk. rewrite Hb. split.
    + intros Hin. apply list_elem_of_In, filter_In in Hin as [Hin _].
      now apply list_elem_of_In, elem_of_app in Hin.
    + intros Hin. apply list_elem_of_In, filter_In. split.
      * now apply list_elem_of_In, elem_of_app.
      * unfold keptId. now apply negb_true_iff, includes_false.
Qed.

Lemma removal_is_exact_witness :
  ("B"%string ∉ bodyIds
     (bodiesOf
        (applyVoiceCommand (command (Some [ball "B"]) None None (Some ["B"%string]))
           (Some {| SceneConfig.bodies := [ball "A"; ball "B"];
                    SceneConfig.constraints := [link "A" (Some "B"%string)] |})))) /\
  forall c,
    c ∈ constraintsOf
          (applyVoiceCommand (command (Some [ball "B"]) None None (Some ["B"%string]))
             (Some {| SceneConfig.bodies := [ball "A"; ball "B"];
                      SceneConfig.constraints := [link "A" (Some "B"%string)] |})) ->
    Str "B" ∉ references c.
Proof.
  apply (removal_is_exact (command (Some [ball "B"]) None None (Some ["B"%string]))).
  apply list_elem_of_singleton. reflexivity.
Defined.

Lemma includes_app (a b : list string) (k : string) :
  includes (a ++ b) k = includes a k || includes b k.
Proof. unfold includes. apply existsb_app. Qed.

Lemma includesId_app (a b : list string) (v : idValue) :
  includesId (a ++ b) v = includesId a v || includesId b v.
Proof. destruct v as [k|name]; [apply includes_app | reflexivity]. Qed.

Lemma survives_app (a b : list string) (c : ConstraintDef.t) :
  survives (a ++ b) c = survives a c && survives b c.
Proof.
  unfold survives. rewrite includesId_app.
  destruct (includesId a (ConstraintDef.bodyAId c));
    destruct (includesId b (ConstraintDef.bodyAId c)); cbn [orb negb andb];
    try reflexivity;
    try (destruct (ConstraintDef.bodyBId c) as [x|]; [|reflexivity];
         destruct (truthyId x); destruct (includesId a x); reflexivity).
  destruct (ConstraintDef.bodyBId c) as [x|]; [|reflexivity].
  rewrite includesId_app.
  destruct (truthyId x); destruct (includesId a x); destruct (includesId b x);
    reflexivity.
Qed.

(** X12. Removals compose: removing one list of ids and then another leaves
    the scene that removing both lists at once leaves.  In particular a
    removal is idempotent, and the order of two removals does not matter for
    the bodies and constraints that remain. *)
Theorem removals_compose (r1 r2 r12 : VoiceCommandResponse.t)
    (st : option SceneConfig.t) :
  orEmpty (VoiceCommandResponse.removeBodyIds r12)
  = orEmpty (VoiceCommandResponse.removeBodyIds r1)
    ++ orEmpty (VoiceCommandResponse.removeBodyIds r2) ->
  applyRemovals r2 (applyRemovals r1 st) = applyRemovals r12 st /\
  applyRemovals r1 (applyRemovals r1 st) = applyRemovals r1 st /\
  applyRemovals r1 (applyRemovals r2 st) = applyRemovals r2 (applyRemovals r1 st).
Proof.
  intros H12. destruct st as [s|]; [|repeat split].
  unfold applyRemovals. rewrite H12.
  cbn [SceneConfig.bodies SceneConfig.constraints].
  rewrite !filter_twice. split; [|split]; f_equal; f_equal.
  - apply filter_ext'. intros b. now rewrite includes_app, negb_orb.
  - apply filter_ext'. intros c. now rewrite survives_app.
  - apply filter_ext'. intros b. now destruct (includes _ _).
  - apply filter_ext'. intros c. now destruct (survives _ c).
  - apply filter_ext'. intros b. apply andb_comm.
  - apply filter_ext'. intros c. apply andb_comm.
Qed.

Lemma removals_compose_witness :
  applyRemovals (command None None None (Some ["B"%string]))
    (applyRemovals (command None None None (Some ["A"%string]))
       (Some {| SceneConfig.bodies := [ball "A"; ball "B"; ball "C"];
                SceneConfig.constraints := [link "C" (Some "B"%string)] |}))
  = applyRemovals (command None None None (Some ["A"; "B"]%string))
      (Some {| SceneConfig.bodies := [ball "A"; ball "B"; ball "C"];
               SceneConfig.constraints := [link "C" (Some "B"%string)] |}).
Proof.
  apply (removals_compose (command None None None (Some ["A"%string]))
           (command None None None (Some ["B"%string]))
           (command None None None (Some ["A"; "B"]%string))).
  reflexivity.
Defined.

(** ** The update pass *)

Lemma over_over {A : Type} (a : A) (u : option A) : over (over a u) u = over a u.
Proof. now destruct u. Qed.

Lemma overOpt_overOpt {A : Type} (a u : option A) :
  overOpt (overOpt a u) u = overOpt a u.
Proof. now destruct u. Qed.

Lemma spread_spread (old : BodyDef.t) (u : BodyUpdate.t) :
  spread (spread old u) u = spread old u.
Proof.
  unfold spread. cbn [BodyDef.id BodyDef.type BodyDef.x BodyDef.y BodyDef.width
    BodyDef.height BodyDef.radius BodyDef.angle BodyDef.isStatic BodyDef.color
    BodyDef.friction].
  now rewrite !over_over, !overOpt_overOpt.
Qed.

(** X13. The update pass never changes the number, the order or the ids of
    the bodies, and it leaves every body alone whose id no fragment names.
    Applying a fragment a second time changes nothing. *)
Theorem update_pass_frame (updatedBodies : list BodyUpdate.t) (bodies : list BodyDef.t) :
  bodyIds (updatePass updatedBodies bodies) = bodyIds bodies /\
  length (updatePass updatedBodies bodies) = length bodies /\
  (forall i b, bodies !! i = Some b ->
     Forall (fun u => BodyUpdate.id u <> BodyDef.id b) updatedBodies ->
     updatePass updatedBodies bodies !! i = Some b) /\
  (forall u, processUpdate (processUpdate bodies u) u = processUpdate bodies u).
Proof.
  split; [apply bodyIds_updatePass|]. split; [|split].
  - rewrite <- (length_fmap BodyDef.id (updatePass updatedBodies bodies)).
    rewrite <- (length_fmap BodyDef.id bodies).
    fold (bodyIds (updatePass updatedBodies bodies)) (bodyIds bodies).
    now rewrite bodyIds_updatePass.
  - intros i b Hb Hus. now apply updatePass_other.
  - intros u.
    destruct (findIndex (hasId (BodyUpdate.id u)) bodies) as [i|] eqn:Hi.
    + destruct (findIndex_Some _ _ _ Hi) as (old & Hold & _).
      rewrite (processUpdate_found bodies u i old Hi Hold).
      assert (Hi' : findIndex (hasId (BodyUpdate.id u)) (<[i := spread old u]> bodies)
                    = Some i).
      { rewrite <- Hi. apply findIndex_ids.
        rewrite <- (processUpdate_found bodies u i old Hi Hold).
        apply bodyIds_processUpdate. }
      assert (Hlook : <[i := spread old u]> bodies !! i = Some (spread old u)).
      { apply list_lookup_insert_eq. eapply lookup_lt_Some. exact Hold. }
      rewrite (processUpdate_found _ u i (spread old u) Hi' Hlook).
      now rewrite list_insert_insert_eq, spread_spread.
    + unfold processUpdate. now rewrite Hi, Hi.
Qed.

Lemma update_pass_frame_witness :
  updatePass [frictionUpdate "a" 0.9] [ball "floor"; ball "a"] !! 0%nat
  = Some (ball "floor").
Proof.
  destruct (update_pass_frame [frictionUpdate "a" 0.9] [ball "floor"; ball "a"])
    as (_ & _ & H & _).
  apply H; [reflexivity|].
  constructor; [discriminate|constructor].
Defined.

(** X14. A command with nothing to add, update or remove leaves the scene
    state as it is, also when there is no scene.  Without a scene, a command
    that only removes still gives no scene; but a command with a new body, a
    new constraint or an update fragment creates a scene, holding the new
    bodies and constraints that survive its own removal list (for an
    update-only command, the empty scene). *)
Theorem merge_edge_cases (response : VoiceCommandResponse.t)
    (st : option SceneConfig.t) :
  (hasAdditions response = false ->
   nonEmpty (VoiceCommandResponse.removeBodyIds response) = false ->
   applyVoiceCommand response st = st) /\
  (hasAdditions response = false -> applyVoiceCommand response None = None) /\
  (hasAdditions response = true ->
   applyVoiceCommand response None
   = Some {| SceneConfig.bodies :=
               List.filter
                 (keptBody (orEmpty (VoiceCommandResponse.removeBodyIds response)))
                 (orEmpty (VoiceCommandResponse.newBodies response));
             SceneConfig.constraints :=
               List.filter
                 (survives (orEmpty (VoiceCommandResponse.removeBodyIds response)))
                 (orEmpty (VoiceCommandResponse.newConstraints response)) |}).
Proof.
  unfold applyVoiceCommand. fold (hasAdditions response).
  split; [|split].
  - now intros -> ->.
  - intros ->. now destruct (nonEmpty _).
  - intros ->. rewrite applyAdditions_unfold. cbn [bodiesOf constraintsOf app].
    assert (Hup : updatePass (orEmpty (VoiceCommandResponse.updatedBodies response)) []
                  = []).
    { apply length_zero_iff_nil.
      rewrite <- (length_fmap BodyDef.id).
      fold (bodyIds (updatePass (orEmpty (VoiceCommandResponse.updatedBodies response)) [])).
      now rewrite bodyIds_updatePass. }
    rewrite Hup. cbn [app].
    destruct (nonEmpty (VoiceCommandResponse.removeBodyIds response)) eqn:Hr.
    + reflexivity.
    + rewrite (nonEmpty_false _ Hr).
      rewrite (filter_all (keptBody [])) by reflexivity.
      now rewrite (filter_all (survives [])) by apply survives_nil.
Qed.

Lemma merge_edge_cases_witness :
  applyVoiceCommand (command None (Some [frictionUpdate "a" 0.9]) None None) None
  = Some {| SceneConfig.bodies := List.filter (keptBody []) [];
            SceneConfig.constraints := List.filter (survives []) [] |}.
Proof.
  destruct (merge_edge_cases
              (command None (Some [frictionUpdate "a" 0.9]) None None) None)
    as (_ & _ & H).
  apply H. reflexivity.
Defined.

(** ** Viewport *)

Lemma handleWheel_accepted (d : Q) (render : Render.t) :
  handleWheel d render = render \/
  handleWheel d render
  = lookAt render
      {| Bounds.min :=
           {| Vector.x := centerX (Render.bounds render)
                          - widthOf render * zoomFactorOf d / 2;
              Vector.y := centerY (Render.bounds render)
                          - widthOf render * zoomFactorOf d
                            * (Render.canvas_height render / Render.canvas_width render)
                            / 2 |};
         Bounds.max :=
           {| Vector.x := centerX (Render.bounds render)
                          + widthOf render * zoomFactorOf d / 2;
              Vector.y := centerY (Render.bounds render)
                          + widthOf render * zoomFactorOf d
                            * (Render.canvas_height render / Render.canvas_width render)
                            / 2 |} |}.
Proof.
  unfold handleWheel.
  destruct (_ && _); [now left|]. destruct (_ && _); [now left|]. now right.
Qed.

(** X15. A wheel event never moves the centre of the view and never touches
    the canvas size; when the zoom is applied, the new box has the aspect
    ratio of the canvas: its height is its width times canvas height over
    canvas width. *)
Theorem zoom_keeps_centre_and_aspect (d : Q) (render : Render.t) :
  centerX (Render.bounds (handleWheel d render)) == centerX (Render.bounds render) /\
  centerY (Render.bounds (handleWheel d render)) == centerY (Render.bounds render) /\
  Render.canvas_width (handleWheel d render) = Render.canvas_width render /\
  Render.canvas_height (handleWheel d render) = Render.canvas_height render /\
  (handleWheel d render <> render ->
   boxHeight (Render.bounds (handleWheel d render))
   == widthOf (handleWheel d render)
      * (Render.canvas_height render / Render.canvas_width render)).
Proof.
  destruct (handleWheel_accepted d render) as [-> | ->].
  - repeat split; try reflexivity. intros H. now elim H.
  - unfold lookAt, widthOf, boxWidth, boxHeight, centerX, centerY.
    cbn [Render.bounds Render.canvas_width Render.canvas_height
         Bounds.min Bounds.max Vector.x Vector.y].
    generalize (Render.canvas_height render / Render.canvas_width render).
    intros aspectRatio.
    repeat split; try reflexivity; try (intros _); field.
Qed.

Lemma zoom_keeps_centre_and_aspect_witness :
  boxHeight (Render.bounds (handleWheel 1 render4000))
  == widthOf (handleWheel 1 render4000)
     * (Render.canvas_height render4000 / Render.canvas_width render4000).
Proof.
  destruct (zoom_keeps_centre_and_aspect 1 render4000) as (_ & _ & _ & _ & H).
  apply H. vm_compute. discriminate.
Defined.

(** X16. Zooming out and back in (or in and back out) does not restore the
    view: when both steps are applied, the box ends at 0.99 times its width.
    Both steps are applied when the width lies between 1000/11 and 4000
    (out, then in), respectively between 100 and 40000/9 (in, then out). *)
Theorem zoom_round_trip_shrinks (dOut dIn : Q) (render : Render.t) :
  0 < dOut -> ~ 0 < dIn ->
  (1000 / 11 <= widthOf render <= 4000 ->
   widthOf (handleWheel dIn (handleWheel dOut render)) == widthOf render * 0.99) /\
  (100 <= widthOf render <= 40000 / 9 ->
   widthOf (handleWheel dOut (handleWheel dIn render)) == widthOf render * 0.99).
Proof.
  intros Hout Hin.
  change (1000 / 11) with (1000 # 11). change (40000 / 9) with (40000 # 9).
  split; intros [Hlo Hhi].
  - destruct (handleWheel_cases dOut render) as (_ & H1 & _).
    specialize (H1 Hout Hhi).
    destruct (handleWheel_cases dIn (handleWheel dOut render)) as (_ & _ & _ & H2).
    rewrite H2; [rewrite H1; field | exact Hin | rewrite H1; lra].
  - destruct (handleWheel_cases dIn render) as (_ & _ & _ & H1).
    specialize (H1 Hin Hlo).
    destruct (handleWheel_cases dOut (handleWheel dIn render)) as (_ & H2 & _).
    rewrite H2; [rewrite H1; field | exact Hout | rewrite H1; lra].
Qed.

Lemma zoom_round_trip_shrinks_witness :
  widthOf (handleWheel (-1) (handleWheel 1 render4000)) == widthOf render4000 * 0.99.
Proof.
  destruct (zoom_round_trip_shrinks 1 (-1) render4000) as [H _].
  - reflexivity.
  - intros H. vm_compute in H. discriminate.
  - apply H. vm_compute. split; discriminate.
Defined.

(** ** Collision flash: life of an effect *)

Lemma renderTicks_finite (k frame : nat) (x y : Q) :
  renderTicks k (Some {| Flash.x := Fin x; Flash.y := Fin y; Flash.frame := frame |})
  = Some {| Flash.x := Fin x; Flash.y := Fin y;
            Flash.frame := if (frame <? 10)%nat then Nat.min (frame + k) 10 else frame |}.
Proof.
  revert frame. induction k as [|k IH]; intros frame.
  - cbn [renderTicks]. destruct (Nat.ltb_spec frame 10); [|reflexivity].
    do 2 f_equal. lia.
  - cbn [renderTicks]. unfold afterRender.
    cbn [Flash.frame Flash.x Flash.y isFinite]. rewrite !andb_true_r.
    destruct (frame <? 10)%nat eqn:E; cbn [snd]; rewrite IH.
    + apply Nat.ltb_lt in E. do 2 f_equal.
      destruct (Nat.ltb_spec (S frame) 10); lia.
    + now rewrite E.
Qed.

(** X17. A contact at a finite point is drawn in exactly the next ten frames:
    in frame [k] below ten as a spark at that point with radius [25 - k]
    (from 25 down to 16) and a positive opacity [0.8 - k/12]; from the tenth
    frame on nothing is drawn and the slot rests at frame 10. *)
Theorem flash_lives_ten_frames (x y : Q) (k : nat) :
  let contact := {| Point.x := Fin x; Point.y := Fin y |} in
  ((k < 10)%nat ->
   afterRender (renderTicks k (Some (flashAt contact)))
   = (Some {| Spark.x := Fin x; Spark.y := Fin y; Spark.radius := (25 - k)%nat |},
      Some {| Flash.x := Fin x; Flash.y := Fin y; Flash.frame := S k |}) /\
   (16 <= 25 - k <= 25)%nat /\ 0 < sparkOpacity k <= 0.8) /\
  ((10 <= k)%nat ->
   afterRender (renderTicks k (Some (flashAt contact)))
   = (None, Some {| Flash.x := Fin x; Flash.y := Fin y; Flash.frame := 10 |})).
Proof.
  intros contact. unfold flashAt, contact. cbn [Point.x Point.y].
  rewrite renderTicks_finite. cbn [Nat.ltb Nat.leb Nat.add].
  split; intros Hk.
  - rewrite Nat.min_l by lia. split; [|split; [lia|]].
    + unfold afterRender. cbn [Flash.frame Flash.x Flash.y isFinite andb].
      destruct (Nat.ltb_spec k 10); [reflexivity|lia].
    + unfold sparkOpacity.
      assert (H0 : (0 <= Z.of_nat k)%Z) by lia.
      assert (H9 : (Z.of_nat k <= 9)%Z) by lia.
      assert (Hq0 : 0 <= inject_Z (Z.of_nat k)).
      { change 0 with (inject_Z 0). now rewrite <- Zle_Qle. }
      assert (Hq9 : inject_Z (Z.of_nat k) <= 9).
      { change 9 with (inject_Z 9). now rewrite <- Zle_Qle. }
      revert Hq0 Hq9. generalize (inject_Z (Z.of_nat k)). intros q Hq0 Hq9.
      unfold Qdiv. change (/ 12) with (1 # 12). split; lra.
  - rewrite Nat.min_r by lia.
    unfold afterRender. cbn [Flash.frame Flash.x Flash.y isFinite andb].
    reflexivity.
Qed.

Lemma flash_lives_ten_frames_witness :
  afterRender (renderTicks 9 (Some (flashAt {| Point.x := Fin 3; Point.y := Fin 4 |})))
  = (Some {| Spark.x := Fin 3; Spark.y := Fin 4; Spark.radius := (25 - 9)%nat |},
     Some {| Flash.x := Fin 3; Flash.y := Fin 4; Flash.frame := 10 |}) /\
  (16 <= 25 - 9 <= 25)%nat /\ 0 < sparkOpacity 9 <= 0.8.
Proof.
  destruct (flash_lives_ten_frames 3 4 9) as [H _]. apply H. lia.
Defined.

Lemma collisionStart_snoc (pairs : list (option Point.t)) (pair : option Point.t)
    (flash : option Flash.t) :
  collisionStart true (pairs ++ [pair]) flash
  = match pair with
    | Some p => Some (flashAt p)
    | None => collisionStart true pairs flash
    end.
Proof.
  unfold collisionStart. cbn [negb]. rewrite fold_left_app. now destruct pair.
Qed.

(** X18. The effect slot holds one contact and no queue: of all the pairs of
    one collision event only the last one that has a support point counts,
    at frame 0; earlier pairs and the effect that was running are discarded.
    An event without any support point, and any event while the effects are
    switched off, leaves the slot as it is. *)
Theorem collisionStart_last_contact (pairs : list (option Point.t))
    (flash : option Flash.t) :
  collisionStart false pairs flash = flash /\
  collisionStart true pairs flash
  = match last (omap (fun pair => pair) pairs) with
    | Some p => Some (flashAt p)
    | None => flash
    end.
Proof.
  split; [reflexivity|].
  induction pairs as [|pair pairs IH] using rev_ind; [reflexivity|].
  rewrite collisionStart_snoc, omap_app.
  destruct pair as [p|]; cbn [omap list_omap].
  - now rewrite last_snoc.
  - now rewrite app_nil_r.
Qed.


(** ** Physics updates and the toast *)

Lemma applyPhysicsUpdates_nothing (u : PhysicsUpdates.t) (prev : PhysicsState.t) :
  hasKeys u = false -> applyPhysicsUpdates u prev = prev.
Proof.
  destruct u as [[g|] [t|] [e|]]; try discriminate. intros _.
  destruct prev as [[gx gy] ts en]. reflexivity.
Qed.



Lemma applyVoiceCommand_nothing (response : VoiceCommandResponse.t)
    (sceneConfig : option SceneConfig.t) :
  hasAdditions response = false ->
  nonEmpty (VoiceCommandResponse.removeBodyIds response) = false ->
  applyVoiceCommand response sceneConfig = sceneConfig.
Proof.
  unfold hasAdditions, applyVoiceCommand. intros -> ->. reflexivity.
Qed.

(** X20. The toast after a voice command.  It is either the error
    [Command not understood or no changes required.] or a success carrying
    the summary, or [Command executed.] when the summary is missing or
    empty.  The error is shown only when the command changed nothing: the
    scene and the physics settings are what they were.  The converse does
    not hold: a command that only lists bodies to remove reports
    [Command executed.] although, without a scene, nothing is removed. *)
Theorem error_toast_means_no_change (physicsUpdates : option PhysicsUpdates.t)
    (response : VoiceCommandResponse.t) :
  (showToastFor physicsUpdates response
     = error "Command not understood or no changes required."%string \/
   (exists s, VoiceCommandResponse.summary response = Some s /\ truthy s = true /\
      showToastFor physicsUpdates response = success s) \/
   (truthyOpt (VoiceCommandResponse.summary response) = false /\
    showToastFor physicsUpdates response = success "Command executed."%string)) /\
  (forall msg, showToastFor physicsUpdates response = error msg ->
     forall (sceneConfig : option SceneConfig.t) (prev : PhysicsState.t),
       applyVoiceCommand response sceneConfig = sceneConfig /\
       updatePhysics physicsUpdates prev = prev) /\
  (nonEmpty (VoiceCommandResponse.removeBodyIds response) = true ->
   hasAdditions response = false ->
   truthyOpt (VoiceCommandResponse.summary response) = false ->
   showToastFor physicsUpdates response = success "Command executed."%string /\
   applyVoiceCommand response None = None).
Proof.
  split; [|split].
  - unfold showToastFor.
    destruct (VoiceCommandResponse.summary response) as [[|c s]|] eqn:Hs; cbn [truthyOpt truthy].
    + rewrite orb_false_r. destruct (commandExecuted physicsUpdates response); auto.
    + rewrite orb_true_r. right. left. exists (String c s). auto.
    + rewrite orb_false_r. destruct (commandExecuted physicsUpdates response); auto.
  - intros msg H sceneConfig prev. unfold showToastFor in H.
    destruct (commandExecuted physicsUpdates response
              || truthyOpt (VoiceCommandResponse.summary response)) eqn:E;
      [discriminate|].
    apply orb_false_elim in E as [E _]. unfold commandExecuted in E.
    apply orb_false_elim in E as [E Hrem]. apply orb_false_elim in E as [Hphys Hadd].
    split; [now apply applyVoiceCommand_nothing|].
    destruct physicsUpdates as [u|]; [|reflexivity].
    now apply applyPhysicsUpdates_nothing.
  - intros Hrem Hadd Hsum. split.
    + unfold showToastFor, commandExecuted. rewrite Hrem, Hsum, !orb_true_r. reflexivity.
    + unfold applyVoiceCommand, hasAdditions in *. rewrite Hadd, Hrem. reflexivity.
Qed.


(** ** Capture size *)

(** The rounded quotient as an integer division. *)
Lemma Math_round_ratio (n : Z) (p : positive) :
  Math_round (inject_Z n * (inject_Z MAX_DIMENSION / inject_Z (Z.pos p)))
  = ((2 * MAX_DIMENSION * n + Z.pos p) / (2 * Z.pos p))%Z.
Proof.
  unfold Math_round.
  assert (E : inject_Z n * (inject_Z MAX_DIMENSION / inject_Z (Z.pos p)) + (1 # 2)
              == (2 * MAX_DIMENSION * n + Z.pos p) # (2 * p)).
  { unfold Qeq, Qdiv, Qinv, inject_Z, MAX_DIMENSION.
    cbn [Qnum Qden Qplus Qmult Pos.mul]. rewrite !Pos2Z.inj_mul. lia. }
  rewrite E. reflexivity.
Qed.

Lemma scaled_side (n m : Z) :
  (0 <= n <= m)%Z -> (MAX_DIMENSION < m)%Z ->
  let r := Math_round (inject_Z n * (inject_Z MAX_DIMENSION / inject_Z m)) in
  (0 <= r <= n)%Z /\ (r <= MAX_DIMENSION)%Z /\
  (2 * MAX_DIMENSION * n - m < 2 * m * r <= 2 * MAX_DIMENSION * n + m)%Z.
Proof.
  intros Hn Hm. cbv zeta. unfold MAX_DIMENSION in Hm.
  destruct m as [|p|p]; try lia.
  rewrite Math_round_ratio. unfold MAX_DIMENSION.
  set (a := (2 * 640 * n + Z.pos p)%Z). set (b := (2 * Z.pos p)%Z).
  assert (Hb : (0 < b)%Z) by (unfold b; lia).
  pose proof (Z.div_mod a b ltac:(lia)) as Hdiv.
  pose proof (Z.mod_pos_bound a b Hb) as Hmod.
  assert (Ha : (0 <= a)%Z) by (unfold a; lia).
  pose proof (Z.div_pos a b Ha Hb) as Hpos.
  assert (Hle : (a / b <= n)%Z).
  { apply Z.lt_succ_r, Z.div_lt_upper_bound; [exact Hb|]. unfold a, b. nia. }
  assert (H640 : (a / b <= 640)%Z).
  { apply Z.lt_succ_r, Z.div_lt_upper_bound; [exact Hb|]. unfold a, b. nia. }
  repeat split; try assumption; unfold a, b in *; nia.
Qed.

(** X21. The canvas size chosen for a captured frame.  Neither side is
    ever enlarged and neither exceeds 640; a frame within 640 x 640 keeps
    its size; otherwise the longer side becomes exactly 640 and the shorter
    one is the nearest integer to its scaled length (off by at most half a
    pixel), so a landscape frame stays landscape and a portrait or square
    one stays so.  (The quotient is taken in exact arithmetic.) *)
Theorem captureSize_within_limit (videoWidth videoHeight : Z) :
  (0 <= videoWidth)%Z -> (0 <= videoHeight)%Z ->
  let (width, height) := captureSize videoWidth videoHeight in
  (0 <= width <= Z.min videoWidth MAX_DIMENSION)%Z /\
  (0 <= height <= Z.min videoHeight MAX_DIMENSION)%Z /\
  (videoWidth <= MAX_DIMENSION -> videoHeight <= MAX_DIMENSION ->
     width = videoWidth /\ height = videoHeight)%Z /\
  (videoHeight < videoWidth -> MAX_DIMENSION < videoWidth ->
     width = MAX_DIMENSION /\ height <= width /\
     Z.abs (2 * (height * videoWidth - MAX_DIMENSION * videoHeight)) <= videoWidth)%Z /\
  (videoWidth <= videoHeight -> MAX_DIMENSION < videoHeight ->
     height = MAX_DIMENSION /\ width <= height /\
     Z.abs (2 * (width * videoHeight - MAX_DIMENSION * videoWidth)) <= videoHeight)%Z.
Proof.
  intros Hw Hh. unfold captureSize. cbv zeta.
  destruct (Z.gtb_spec videoWidth videoHeight) as [Hgt|Hle].
  - destruct (Z.gtb_spec videoWidth MAX_DIMENSION) as [Hbig|Hsmall].
    + destruct (scaled_side videoHeight videoWidth ltac:(lia) Hbig) as (H1 & H2 & H3).
      cbv zeta in H1, H2, H3.
      set (r := Math_round _) in *. unfold MAX_DIMENSION in *.
      repeat split; try lia.
    + unfold MAX_DIMENSION in *. repeat split; try lia.
  - destruct (Z.gtb_spec videoHeight MAX_DIMENSION) as [Hbig|Hsmall].
    + destruct (scaled_side videoWidth videoHeight ltac:(lia) Hbig) as (H1 & H2 & H3).
      cbv zeta in H1, H2, H3.
      set (r := Math_round _) in *. unfold MAX_DIMENSION in *.
      repeat split; try lia.
    + unfold MAX_DIMENSION in *. repeat split; try lia.
Qed.

Lemma captureSize_within_limit_witness :
  captureSize 1920 1080 = (640, 360)%Z /\
  (0 <= 640 <= Z.min 1920 MAX_DIMENSION)%Z /\
  (0 <= 360 <= Z.min 1080 MAX_DIMENSION)%Z.
Proof.
  split; [reflexivity|].
  pose proof (captureSize_within_limit 1920 1080 ltac:(lia) ltac:(lia)) as H.
  change (captureSize 1920 1080) with (640, 360)%Z in H.
  destruct H as (H1 & H2 & _). split; assumption.
Defined.


(** ** The audio payload and the errors of [interpretVoiceCommand] *)

Lemma splitComma_whole (s : string) :
  occurs "," s = false -> splitComma s = [s].
Proof.
  induction s as [|c s IH]; intros H; [reflexivity|].
  simpl in H. apply orb_false_elim in H as [Hc Hs].
  cbn [splitComma]. rewrite Hc, (IH Hs). reflexivity.
Qed.

Lemma splitComma_first (pre s : string) :
  occurs "," pre = false ->
  splitComma (pre ++ String "," s) = pre :: splitComma s.
Proof.
  induction pre as [|c pre IH]; intros H.
  - rewrite append_nil. reflexivity.
  - simpl in H. apply orb_false_elim in H as [Hc Hpre].
    rewrite append_cons. cbn [splitComma]. rewrite Hc, (IH Hpre). reflexivity.
Qed.

(** X22. The audio payload handed to the service is the stretch of the data
    URL between its first and its second comma (or the end): for a header
    and a payload without commas it is the payload, also when more text
    follows behind a further comma.  A reader result without any comma
    gives no payload.  A missing payload, or one shorter than 100
    characters, is refused with [Audio recording was too short or empty.]
    whatever the service would have answered. *)
Theorem base64Part_payload (header payload : string) :
  occurs "," header = false -> occurs "," payload = false ->
  base64Part (header ++ String "," payload) = Some payload /\
  (forall rest,
     base64Part (header ++ String "," (payload ++ String "," rest)) = Some payload) /\
  base64Part header = None /\
  (forall r, interpretReply (base64Part header) r = inl AUDIO_TOO_SHORT_MESSAGE) /\
  (forall r, (String.length payload < 100)%nat ->
     interpretReply (base64Part (header ++ String "," payload)) r
     = inl AUDIO_TOO_SHORT_MESSAGE).
Proof.
  intros Hh Hp.
  assert (E1 : base64Part (header ++ String "," payload) = Some payload).
  { unfold base64Part. rewrite (splitComma_first _ _ Hh), (splitComma_whole _ Hp).
    reflexivity. }
  assert (E2 : base64Part header = None).
  { unfold base64Part. rewrite (splitComma_whole _ Hh). reflexivity. }
  split; [exact E1|]. split; [|split; [exact E2|split]].
  - intros rest. unfold base64Part.
    rewrite (splitComma_first _ _ Hh), (splitComma_first _ _ Hp). reflexivity.
  - intros r. rewrite E2. reflexivity.
  - intros r Hlen. rewrite E1. unfold interpretReply, audioTooShort.
    apply Nat.ltb_lt in Hlen. rewrite Hlen, orb_true_r. reflexivity.
Qed.

Lemma base64Part_payload_witness :
  base64Part "data:audio/webm;base64,GkXfo59ChoEB"%string = Some "GkXfo59ChoEB"%string.
Proof.
  exact (proj1 (base64Part_payload "data:audio/webm;base64"%string
                  "GkXfo59ChoEB"%string eq_refl eq_refl)).
Defined.

Lemma friendlyError_cases (message : string) :
  friendlyError message = TIMED_OUT_MESSAGE \/
  friendlyError message = NOT_UNDERSTOOD_MESSAGE \/
  (friendlyError message = message /\
   includesText "Invalid Response" message = true /\
   includesText "timed out" message = false).
Proof.
  unfold friendlyError.
  destruct (includesText "timed out" message); [auto|].
  destruct (includesText "Invalid Response" message); auto.
Qed.

(** X23. The outcomes of a voice request.  Too short an audio is refused
    before anything else.  Otherwise a time-out is reported as
    [... (Request Timed Out).], a reply without text as
    [I couldn't understand what you mean.], a reply whose cleaned text is
    not JSON as [... (Invalid Response).], and a reply that parses goes on
    with the parsed value.  A rejection is reported as a time-out when its
    message contains [timed out], under its own message when it contains
    [Invalid Response] (and not [timed out]), and as not understood
    otherwise: no other error message leaves the function. *)
Theorem interpretReply_outcomes (audioBase64 : option string) (r : reply) :
  (audioTooShort audioBase64 = true ->
     interpretReply audioBase64 r = inl AUDIO_TOO_SHORT_MESSAGE) /\
  (audioTooShort audioBase64 = false ->
     (r = timedOut -> interpretReply audioBase64 r = inl TIMED_OUT_MESSAGE) /\
     (r = replied None \/ r = replied (Some EmptyString) ->
        interpretReply audioBase64 r = inl NOT_UNDERSTOOD_MESSAGE) /\
     (forall text, r = replied (Some text) -> truthy text = true ->
        match JSON.parse (cleanJson text) with
        | Some result => interpretReply audioBase64 r = inr result
        | None => interpretReply audioBase64 r = inl INVALID_RESPONSE_MESSAGE
        end) /\
     (forall message, r = rejected message ->
        interpretReply audioBase64 r
        = inl (if includesText "timed out" message then TIMED_OUT_MESSAGE
               else if includesText "Invalid Response" message then message
               else NOT_UNDERSTOOD_MESSAGE))) /\
  (forall msg, interpretReply audioBase64 r = inl msg ->
     msg = AUDIO_TOO_SHORT_MESSAGE \/ msg = TIMED_OUT_MESSAGE \/
     msg = NOT_UNDERSTOOD_MESSAGE \/ msg = INVALID_RESPONSE_MESSAGE \/
     (r = rejected msg /\ includesText "Invalid Response" msg = true /\
      includesText "timed out" msg = false)).
Proof.
  split; [|split].
  - intros H. unfold interpretReply. rewrite H. reflexivity.
  - intros H. unfold interpretReply. rewrite H. repeat split.
    + intros ->. reflexivity.
    + intros [-> | ->]; reflexivity.
    + intros text -> Ht. cbn [over]. unfold validateResponse. rewrite Ht.
      destruct (JSON.parse (cleanJson text)); reflexivity.
    + intros message ->. reflexivity.
  - intros msg. unfold interpretReply.
    destruct (audioTooShort audioBase64); [intros [= <-]; auto|].
    destruct r as [|message|text].
    + intros [= <-]. auto.
    + intros [= <-].
      destruct (friendlyError_cases message) as [-> | [-> | (E & H1 & H2)]]; auto.
      rewrite E. auto 10.
    + destruct (validateResponse (over EmptyString text)); intros [= <-]; auto.
Qed.


(** ** Code fences and misplaced braces in [cleanJson] *)

Local Open Scope string_scope.

Lemma append_empty (s : string) : s ++ EmptyString = s.
Proof.
  induction s as [|c s IH]; [reflexivity|]. rewrite append_cons. now rewrite IH.
Qed.

(** A text without the pattern is left as it is. *)
Lemma removeAll_absent (pat s : string) :
  includesText pat s = false -> removeAll pat s = s.
Proof.
  unfold removeAll. induction s as [|c s IH]; intros H; [reflexivity|].
  cbn [includesText] in H. apply orb_false_elim in H as [Hp Hs].
  cbn [removeAllFrom]. rewrite Hp, (IH Hs). reflexivity.
Qed.

Lemma includesText_longer (a b s : string) :
  (forall t, String.prefix a t = true -> String.prefix b t = true) ->
  includesText b s = false -> includesText a s = false.
Proof.
  intros Hab. induction s as [|c s IH]; intros H.
  - cbn [includesText] in *. apply orb_false_elim in H as [Hp _].
    destruct (String.prefix a EmptyString) eqn:E; [|reflexivity].
    apply Hab in E. congruence.
  - cbn [includesText] in *. apply orb_false_elim in H as [Hp Hs].
    rewrite (IH Hs), orb_false_r.
    destruct (String.prefix a (String c s)) eqn:E; [|reflexivity].
    apply Hab in E. congruence.
Qed.

Lemma includesText_occurs (c : ascii) (pat s : string) :
  occurs c s = false -> includesText (String c pat) s = false.
Proof.
  induction s as [|a s IH]; intros H; [reflexivity|].
  simpl in H. apply orb_false_elim in H as [Ha Hs].
  cbn [includesText String.prefix]. rewrite (IH Hs), orb_false_r.
  destruct (ascii_dec c a) as [->|_]; [|reflexivity].
  rewrite Ascii.eqb_refl in Ha. discriminate.
Qed.

(** Skipping the rest of a match is dropping its characters. *)
Lemma removeAllFrom_skip (pat a : string) (k : nat) (s : string) :
  String.length a = k -> removeAllFrom pat k (a ++ s) = removeAllFrom pat 0 s.
Proof.
  revert k. induction a as [|c a IH]; intros k H; simpl in H; subst k.
  - reflexivity.
  - rewrite append_cons. cbn [removeAllFrom]. now apply IH.
Qed.

Lemma prefix_fence (s : string) :
  String.prefix "```" s = true ->
  exists t, s = String "`" (String "`" (String "`" t)).
Proof.
  intros H.
  destruct s as [|a s]; cbn [String.prefix] in H; [discriminate|].
  destruct (ascii_dec "`" a) as [<-|]; [|discriminate].
  destruct s as [|b s]; cbn [String.prefix] in H; [discriminate|].
  destruct (ascii_dec "`" b) as [<-|]; [|discriminate].
  destruct s as [|c s]; cbn [String.prefix] in H; [discriminate|].
  destruct (ascii_dec "`" c) as [<-|]; [|discriminate].
  exists s. reflexivity.
Qed.

(** After the fences are removed, none is left, and the text starts with no
    more backticks than before. *)
Lemma removeAll_fence_free (n : nat) (s : string) :
  (String.length s <= n)%nat ->
  includesText "```" (removeAll "```" s) = false /\
  (String.prefix "`" (removeAll "```" s) = true -> String.prefix "`" s = true) /\
  (String.prefix "``" (removeAll "```" s) = true -> String.prefix "``" s = true).
Proof.
  revert s. induction n as [|n IH]; intros s Hn.
  - destruct s; [|simpl in Hn; lia]. repeat split; intros; discriminate.
  - destruct s as [|c s]; [repeat split; intros; discriminate|].
    simpl in Hn. unfold removeAll. cbn [removeAllFrom].
    destruct (String.prefix "```" (String c s)) eqn:E.
    + destruct (prefix_fence _ E) as (t & Et). injection Et as -> ->.
      simpl in Hn.
      change (String.length "```" - 1)%nat with 2%nat.
      change (String "`" (String "`" t)) with ("``" ++ t)%string.
      rewrite (removeAllFrom_skip "```" "``" 2 t eq_refl).
      destruct (IH t) as (H1 & _); [lia|].
      split; [exact H1|]. split; intros _; reflexivity.
    + destruct (IH s ltac:(lia)) as (H1 & H2 & H3).
      fold (removeAll "```" s). set (out := removeAll "```" s) in *.
      destruct (ascii_dec "`" c) as [<-|Hc].
      * assert (Hs : String.prefix "``" s = false).
        { cbn [String.prefix] in E. destruct (ascii_dec "`" "`"); [|congruence].
          exact E. }
        assert (Hout : String.prefix "``" out = false).
        { destruct (String.prefix "``" out); [|reflexivity].
          rewrite H3 in Hs; [discriminate|reflexivity]. }
        split; [|split].
        -- cbn [includesText]. rewrite H1, orb_false_r.
           cbn [String.prefix]. destruct (ascii_dec "`" "`"); [|congruence].
           exact Hout.
        -- intros _. cbn [String.prefix].
           destruct (ascii_dec "`" "`"); [now destruct s|congruence].
        -- cbn [String.prefix]. destruct (ascii_dec "`" "`"); [|congruence].
           exact H2.
      * assert (Hno : forall p, String.prefix (String "`" p) (String c out) = false).
        { intros p. cbn [String.prefix]. destruct (ascii_dec "`" c); [contradiction|].
          reflexivity. }
        split; [|split].
        -- cbn [includesText]. rewrite H1, orb_false_r. apply Hno.
        -- rewrite Hno. discriminate.
        -- rewrite Hno. discriminate.
Qed.

Lemma stripFences_absent (s : string) :
  includesText "```" s = false -> stripFences s = s.
Proof.
  intros H. unfold stripFences.
  rewrite (removeAll_absent "```json" s).
  - now apply removeAll_absent.
  - apply (includesText_longer "```json" "```"); [|exact H].
    intros t Ht.
    destruct t as [|a t]; cbn [String.prefix] in *; [discriminate|].
    destruct (ascii_dec "`" a); [|discriminate].
    destruct t as [|b t]; cbn [String.prefix] in *; [discriminate|].
    destruct (ascii_dec "`" b); [|discriminate].
    destruct t as [|c t]; cbn [String.prefix] in *; [discriminate|].
    destruct (ascii_dec "`" c); [|discriminate].
    now destruct t.
Qed.

(** X24. Removing the code fences leaves no fence behind: the stripped text
    never contains three backticks in a row, whatever the reply (also when
    removing a [```json] joins backticks that stood around it).  Hence
    stripping twice is stripping once, and a text without a fence, in
    particular one without a backtick, is not changed. *)
Theorem stripFences_leaves_no_fence (text : string) :
  includesText "```" (stripFences text) = false /\
  stripFences (stripFences text) = stripFences text /\
  (includesText "```" text = false -> stripFences text = text) /\
  (occurs "`" text = false -> stripFences text = text).
Proof.
  assert (H : includesText "```" (stripFences text) = false).
  { unfold stripFences.
    apply (removeAll_fence_free (String.length (removeAll "```json" text))). lia. }
  split; [exact H|]. split; [now apply stripFences_absent|].
  split; [apply stripFences_absent|].
  intros Ho. apply stripFences_absent. now apply includesText_occurs.
Qed.

(** X25. Braces in the wrong order.  When the only closing brace of a reply
    stands before its only opening brace, the two bounds are swapped by
    [substring] and the cleaned text is what stands strictly between the
    two braces, without them: the reply is validated as that stretch
    alone. *)
Theorem cleanJson_swapped_braces (pre mid post : string) :
  occurs "`" (pre ++ String "}" (mid ++ String "{" post)) = false ->
  occurs "{" pre = false -> occurs "{" mid = false ->
  occurs "}" mid = false -> occurs "}" post = false ->
  cleanJson (pre ++ String "}" (mid ++ String "{" post)) = mid /\
  validateResponse (pre ++ String "}" (mid ++ String "{" post)) = parsedOrInvalid mid.
Proof.
  intros Htick Hpre Hmid1 Hmid2 Hpost.
  set (text := (pre ++ String "}" (mid ++ String "{" post))%string) in *.
  assert (Hstrip : stripFences text = text).
  { apply stripFences_absent. now apply includesText_occurs. }
  assert (Hstart : indexOf "{" text
                   = Some (String.length pre + 1 + String.length mid)%nat).
  { unfold text.
    replace (pre ++ String "}" (mid ++ String "{" post))%string
      with ((pre ++ String "}" mid) ++ String "{" post)%string
      by (rewrite append_assoc, append_cons; reflexivity).
    rewrite indexOf_first.
    - rewrite length_append. simpl. f_equal. lia.
    - rewrite occurs_append. simpl. now rewrite Hpre, Hmid1. }
  assert (Hend : lastIndexOf "}" text = Some (String.length pre)).
  { unfold text. apply lastIndexOf_last.
    rewrite occurs_append. simpl. now rewrite Hmid2, Hpost. }
  assert (Hclean : cleanJson text = mid).
  { unfold cleanJson. rewrite Hstrip, Hstart, Hend. unfold js_substring.
    replace (Nat.min (String.length pre + 1 + String.length mid) (String.length pre + 1))
      with (String.length (pre ++ "}")) by (rewrite length_append; simpl; lia).
    replace (Nat.max (String.length pre + 1 + String.length mid) (String.length pre + 1)
             - String.length (pre ++ "}"))%nat
      with (String.length mid) by (rewrite length_append; simpl; lia).
    unfold text.
    replace (pre ++ String "}" (mid ++ String "{" post))%string
      with ((pre ++ "}") ++ (mid ++ String "{" post))%string
      by (rewrite append_assoc; reflexivity).
    rewrite substring_skip. apply substring_take. }
  split; [exact Hclean|].
  unfold validateResponse, parsedOrInvalid. rewrite Hclean.
  unfold text. now destruct pre.
Qed.

Lemma cleanJson_swapped_braces_witness :
  cleanJson "} 12 {"%string = " 12 "%string /\
  validateResponse "} 12 {"%string = parsedOrInvalid " 12 "%string.
Proof.
  exact (cleanJson_swapped_braces EmptyString " 12 "%string EmptyString
           eq_refl eq_refl eq_refl eq_refl eq_refl).
Defined.

Local Close Scope string_scope.
